(** * sklearn_questions.py: KNearestNeighbors and MonthlySplit

    A shallow embedding of the two classes of [sklearn_questions.py]:
    the nearest-neighbour classifier (lines 66-143) and the monthly
    cross-validation splitter (lines 146-212), with the properties the
    specification states about them.

    Conventions of the embedding.
    - A Python exception is a constructor of [exn]; a call that may raise
      returns a [result].
    - An instance's attributes set at run time live in a dictionary
      ([gmap string value]), so that [hasattr] is a lookup.
    - A pandas object is modelled by the part of it the code reads: a
      [DataFrame] is its row labels and its columns; the value of
      [pd.to_datetime] is either a [DatetimeIndex] (no [.iloc]) or a [Series].
    - Finite floats are rationals ([Q]). The distances are exact, where
      sklearn computes them in float64: their values, and which rows tie,
      can differ, and nothing stated below depends on them.
    - Timestamps are tz-naive. A table holds no missing date: the cells
      that pandas reads as NaT (the texts ["NaT"] and [""], [None]) are
      outside the tables modelled, so every cell becomes a timestamp or
      makes [pd.to_datetime] raise.
    - What pandas and Python convert from text is theirs to decide: the
      class [Conversions] names these functions and every statement holds
      for all of them. *)

From Stdlib Require Import ZArith QArith Qround.
From stdpp Require Import base option list sorting gmap strings.

Local Open Scope Z_scope.

(** ** Exceptions and results *)

Inductive exn : Type :=
  | ValueError
  | TypeError
  | IndexError
  | AttributeError
  | OverflowError
  | NotFittedError.

Inductive result (A : Type) : Type :=
  | Ok (a : A)
  | Err (e : exn).
Arguments Ok {A} a.
Arguments Err {A} e.

Global Instance result_ret : MRet result := λ A a, Ok a.
Global Instance result_bind : MBind result := λ A B f r,
  match r with
  | Ok a => f a
  | Err e => Err e
  end.

Definition of_option {A} (e : exn) (o : option A) : result A :=
  match o with
  | Some a => Ok a
  | None => Err e
  end.

(** ** pandas timestamps and monthly periods *)

(** The civil fields of a [pd.Timestamp]; [nanos] is the time of day.
    Chronological order is the lexicographic order of the fields. *)
Record Timestamp : Type := mkTimestamp {
  year : Z;
  month : Z;
  day : Z;
  nanos : Z
}.

Definition ts_le (a b : Timestamp) : Prop :=
  year a < year b ∨ (year a = year b ∧
  (month a < month b ∨ (month a = month b ∧
  (day a < day b ∨ (day a = day b ∧ nanos a ≤ nanos b))))).

Global Instance ts_le_dec a b : Decision (ts_le a b).
Proof. unfold ts_le. apply _. Defined.

Global Instance Timestamp_eq_dec : EqDecision Timestamp.
Proof. solve_decision. Defined.

(** [Period] of frequency ['M']: a (year, month) pair. *)
Definition Period : Type := (Z * Z)%type.

Definition to_period_M (t : Timestamp) : Period := (year t, month t).

Definition period_le (p q : Period) : Prop :=
  p.1 < q.1 ∨ (p.1 = q.1 ∧ p.2 ≤ q.2).

Definition period_lt (p q : Period) : Prop :=
  p.1 < q.1 ∨ (p.1 = q.1 ∧ p.2 < q.2).

(** ** Tables *)

(** What a cell of a column, or a row label, may hold. *)
Inductive cell : Type :=
  | CTime (t : Timestamp)
  | CInt (z : Z)
  | CStr (s : string).

Global Instance cell_eq_dec : EqDecision cell.
Proof. solve_decision. Defined.

(** [X.index] and [X.columns] / [X[name]]. *)
Record DataFrame : Type := mkDataFrame {
  index : list cell;
  columns : gmap string (list cell)
}.

(** Every column has one cell per row. *)
Definition wf_frame (X : DataFrame) : Prop :=
  ∀ name col, columns X !! name = Some col → length col = length (index X).

(** The value of [pd.to_datetime]: on [X.index] a [DatetimeIndex], on a
    column a [Series], which carries the row labels of the table. *)
Inductive time_data : Type :=
  | DatetimeIndex (values : list Timestamp)
  | Series (labels : list cell) (values : list Timestamp).

Definition td_values (td : time_data) : list Timestamp :=
  match td with
  | DatetimeIndex v => v
  | Series _ v => v
  end.

(** Positional selection [l.iloc[positions]] (also [l[positions]] on an
    array): out of range raises [IndexError]. *)
Definition iloc {A} (l : list A) (positions : list nat) : result (list A) :=
  of_option IndexError (mapM (λ i, l !! i) positions).

(** Selection by a boolean mask, [l[mask]]: a mask of another length raises
    [IndexError]. *)
Definition bool_index {A} (l : list A) (mask : list bool) : result (list A) :=
  if decide (length l = length mask)
  then Ok (filter (λ p, p.2 = true) (zip l mask)).*1
  else Err IndexError.

(** A stable sort (insertion sort, which is what numpy runs on short
    arrays): equal keys keep their order. The order of equal keys on long
    arrays is numpy's business and no property below depends on it. *)
Section stable_sort.
Context {A : Type} (R : relation A) `{∀ x y, Decision (R x y)}.

Fixpoint sort_insert (x : A) (l : list A) : list A :=
  match l with
  | [] => [x]
  | y :: l' => if decide (R x y) then x :: y :: l' else y :: sort_insert x l'
  end.

Fixpoint stable_sort (l : list A) : list A :=
  match l with
  | [] => []
  | x :: l' => sort_insert x (stable_sort l')
  end.
End stable_sort.

(** [v.argsort()] / [np.argsort(v)]: the positions of the values of [v] in
    ascending order [R]; positions and values are sorted together, by
    value. *)
Definition by_value {A} (R : relation A) (p q : nat * A) : Prop := R p.2 q.2.

Global Instance by_value_dec {A} (R : relation A) `{∀ x y, Decision (R x y)}
  p q : Decision (by_value R p q).
Proof. unfold by_value. apply _. Defined.

Definition argsort {A} (R : relation A) `{∀ x y, Decision (R x y)}
    (v : list A) : list nat :=
  (stable_sort (by_value R) (zip (seq 0 (length v)) v)).*1.

(** [.unique()]: the distinct values in order of first appearance. *)
Fixpoint unique_from {A} `{EqDecision A} (seen l : list A) : list A :=
  match l with
  | [] => []
  | x :: l' =>
      if decide (x ∈ seen) then unique_from seen l'
      else x :: unique_from (x :: seen) l'
  end.

Definition unique {A} `{EqDecision A} (l : list A) : list A := unique_from [] l.

(** [.min()] and [.max()]; [None] is NaT, the answer on no values. *)
Fixpoint ts_min (l : list Timestamp) : option Timestamp :=
  match l with
  | [] => None
  | t :: l' =>
      match ts_min l' with
      | None => Some t
      | Some m => Some (if decide (ts_le t m) then t else m)
      end
  end.

Fixpoint ts_max (l : list Timestamp) : option Timestamp :=
  match l with
  | [] => None
  | t :: l' =>
      match ts_max l' with
      | None => Some t
      | Some m => Some (if decide (ts_le m t) then t else m)
      end
  end.

(** ** Conversions from text and from integers

    [parse_datetime] is the parser of date strings behind [pd.to_datetime],
    [from_epoch_ns] its reading of an integer as nanoseconds since the
    epoch, and [int_of_str] is Python's [int] on a string. Each raises a
    [ValueError] (or a subclass of it) where it gives [None]. *)
Class Conversions : Type := mkConversions {
  parse_datetime : string → option Timestamp;
  from_epoch_ns : Z → option Timestamp;
  int_of_str : string → option Z
}.

(** ** MonthlySplit (lines 146-212) *)

Record MonthlySplit : Type := mkMonthlySplit { time_col : string }.

(** The result of [get_n_splits]: an integer, or the float nan that the
    arithmetic on NaT fields gives on a table without rows. *)
Inductive n_splits : Type :=
  | NInt (n : Z)
  | NNaN.

Definition cell_to_datetime `{Conversions} (c : cell) : result Timestamp :=
  match c with
  | CTime t => Ok t
  | CInt z => of_option ValueError (from_epoch_ns z)
  | CStr s => of_option ValueError (parse_datetime s)
  end.

Definition to_datetime `{Conversions} (cells : list cell)
    : result (list Timestamp) :=
  mapM cell_to_datetime cells.

(** Lines 168-173 and, word for word, 190-195. *)
Definition resolve_time_values `{Conversions} (self : MonthlySplit)
    (X : DataFrame) : result time_data :=
  if decide (time_col self = "index") then
    v ← to_datetime (index X); mret (DatetimeIndex v)
  else
    match columns X !! time_col self with
    | None => Err ValueError
    | Some col => v ← to_datetime col; mret (Series (index X) v)
    end.

(** Lines 165-185. *)
Definition get_n_splits `{Conversions} (self : MonthlySplit) (X : DataFrame)
    : result n_splits :=
  time_data ← resolve_time_values self X;
  let time_data := stable_sort ts_le (td_values time_data) in
  match ts_min time_data, ts_max time_data with
  | Some first_date, Some last_date =>
      let diff_month := month last_date - month first_date in
      let diff_year := year last_date - year first_date in
      let total_months := diff_year * 12 + diff_month in
      mret (NInt (Z.max total_months 0))
  | _, _ => mret NNaN
  end.

(** [time_data.iloc[positions]]: a [DatetimeIndex] has no [iloc]. *)
Definition td_iloc (td : time_data) (positions : list nat)
    : result time_data :=
  match td with
  | DatetimeIndex _ => Err AttributeError
  | Series labels v =>
      labels' ← iloc labels positions;
      v' ← iloc v positions;
      mret (Series labels' v')
  end.

(** The body of the loop of lines 205-212, at index [i]. *)
Definition split_step (X_sorted_index : list cell)
    (periods unique_months : list Period) (i : nat)
    : result (list cell * list cell) :=
  p ← of_option IndexError (unique_months !! i);
  q ← of_option IndexError (unique_months !! (i + 1)%nat);
  let train_mask := (λ m, bool_decide (m = p)) <$> periods in
  let test_mask := (λ m, bool_decide (m = q)) <$> periods in
  train_indices ← bool_index X_sorted_index train_mask;
  test_indices ← bool_index X_sorted_index test_mask;
  mret (train_indices, test_indices).

(** Lines 187-212. [split] is a generator: its body runs when the first
    pair is asked for, and the value here is what the caller collects,
    the pairs in the order they are yielded, or the exception raised
    before the first of them. *)
Definition split `{Conversions} (self : MonthlySplit) (X : DataFrame)
    : result (list (list cell * list cell)) :=
  time_data ← resolve_time_values self X;
  let sorted_indices := argsort ts_le (td_values time_data) in
  X_sorted_index ← iloc (index X) sorted_indices;
  time_sorted ← td_iloc time_data sorted_indices;
  let periods := to_period_M <$> td_values time_sorted in
  let unique_months := unique periods in
  mapM (split_step X_sorted_index periods unique_months)
       (seq 0 (length unique_months - 1)).

(** ** KNearestNeighbors (lines 66-143) *)

(** A class label, as an element of a numpy array of labels. *)
Inductive label : Type :=
  | LInt (z : Z)
  | LFloat (q : Q)
  | LStr (s : string).

(** Equality of two elements of one array (arrays are homogeneous). *)
Definition label_eqb (a b : label) : bool :=
  match a, b with
  | LInt x, LInt y => bool_decide (x = y)
  | LFloat x, LFloat y => Qeq_bool x y
  | LStr x, LStr y => bool_decide (x = y)
  | _, _ => false
  end.

(** The objects this class stores in attributes. *)
Inductive value : Type :=
  | VMatrix (rows : list (list Q))
  | VLabels (labels : list label).

(** [n_neighbors] is the constructor's parameter; [attrs] holds every
    attribute set later, by name. *)
Record KNearestNeighbors : Type := mkKNearestNeighbors {
  n_neighbors : Z;
  attrs : gmap string value
}.

(** [__init__], line 69. *)
Definition init (n_neighbors : Z) : KNearestNeighbors :=
  mkKNearestNeighbors n_neighbors ∅.

Definition hasattr (self : KNearestNeighbors) (name : string) : bool :=
  bool_decide (is_Some (attrs self !! name)).

Definition getattr (self : KNearestNeighbors) (name : string) : result value :=
  of_option AttributeError (attrs self !! name).

(** [self.name = v]. *)
Definition setattr (self : KNearestNeighbors) (name : string) (v : value)
    : KNearestNeighbors :=
  mkKNearestNeighbors (n_neighbors self) (<[name := v]> (attrs self)).

(** *** sklearn's validation helpers *)

(** [check_array]: a matrix with at least one row and one column. *)
Definition check_array (X : list (list Q)) : result (list (list Q)) :=
  match X with
  | [] => Err ValueError
  | r :: _ =>
      if decide (length r = 0%nat) then Err ValueError
      else if forallb (λ r', bool_decide (length r' = length r)) X then Ok X
      else Err ValueError
  end.

(** [check_X_y]: [check_array] on [X], and one label per row. *)
Definition check_X_y (X : list (list Q)) (y : list label)
    : result (list (list Q) * list label) :=
  X ← check_array X;
  if decide (length X = length y) then Ok (X, y) else Err ValueError.

(** [check_is_fitted(self, attributes)]: every listed attribute exists. *)
Definition check_is_fitted (self : KNearestNeighbors)
    (attributes : list string) : result unit :=
  if forallb (hasattr self) attributes then Ok () else Err NotFittedError.

Definition is_integral (q : Q) : bool := Qeq_bool q (inject_Z (Qfloor q)).

(** [check_classification_targets]: float labels that are not whole
    numbers are a regression target. *)
Definition check_classification_targets (y : list label) : result unit :=
  if forallb (λ l, match l with LFloat q => is_integral q | _ => true end) y
  then Ok () else Err ValueError.

(** *** Distances and votes *)

(** The squared Euclidean distance of two rows, exact. A distance and its
    square order pairs of rows alike; sklearn's float64 arithmetic
    ([x.x - 2 x.y + y.y]) can order near rows otherwise. *)
Definition sq_dist (a b : list Q) : Q :=
  foldr Qplus 0%Q (zip_with (λ x y, (x - y) * (x - y))%Q a b).

(** [pairwise_distances(X, Y)]: both are checked, and must agree on the
    number of columns. *)
Definition pairwise_distances (X : list (list Q)) (Y : value)
    : result (list (list Q)) :=
  match Y with
  | VLabels _ => Err ValueError
  | VMatrix Y =>
      X ← check_array X;
      Y ← check_array Y;
      if decide (length (default [] (head X)) = length (default [] (head Y)))
      then Ok ((λ x, sq_dist x <$> Y) <$> X)
      else Err ValueError
  end.

Global Instance Qle_dec (a b : Q) : Decision (a <= b)%Q.
Proof. unfold Qle. apply _. Defined.

(** The slice [l[:k]]. *)
Definition slice_to {A} (l : list A) (k : Z) : list A :=
  if decide (0 ≤ k) then take (Z.to_nat k) l
  else take (length l - Z.to_nat (- k)) l.

(** [Counter(labels)]: the labels with their counts, in order of first
    appearance. *)
Fixpoint count_add (x : label) (c : list (label * nat)) : list (label * nat) :=
  match c with
  | [] => [(x, 1%nat)]
  | (y, n) :: c' =>
      if label_eqb y x then (y, S n) :: c' else (y, n) :: count_add x c'
  end.

Definition Counter (labels : list label) : list (label * nat) :=
  foldl (λ c x, count_add x c) [] labels.

(** [most_common(1)]: the first entry with the largest count, if any. *)
Definition most_common_1 (c : list (label * nat)) : list (label * nat) :=
  match c with
  | [] => []
  | e :: c' =>
      [foldl (λ best e', if decide (best.2 < e'.2)%nat then e' else best) e c']
  end.

(** [int(label)]: a float is cut towards zero. *)
Definition int_of_label `{Conversions} (l : label) : result Z :=
  match l with
  | LInt z => Ok z
  | LFloat q => Ok (Z.quot (Qnum q) (Z.pos (Qden q)))
  | LStr s => of_option ValueError (int_of_str s)
  end.

(** Storing a Python int in a float64 array: exact below [2^53], rounded
    to 53 significant bits (ties to even) above, [OverflowError] beyond the
    range of a double. *)
Definition float_of_int (z : Z) : result Q :=
  let a := Z.abs z in
  if decide (a < 2 ^ 53) then Ok (inject_Z z)
  else
    let e := Z.log2 a - 52 in
    let q := Z.shiftr a e in
    let r := Z.land a (Z.ones e) in
    let half := 2 ^ (e - 1) in
    let q' := if decide (half < r ∨ (r = half ∧ Z.odd q = true))
              then q + 1 else q in
    let m := Z.shiftl q' e in
    if decide (2 ^ 1024 ≤ m) then Err OverflowError
    else Ok (inject_Z (Z.sgn z * m)).

(** Lines 72-90. *)
Definition fit (self : KNearestNeighbors) (X : list (list Q))
    (y : list label) : result KNearestNeighbors :=
  '(X, y) ← check_X_y X y;
  let self := setattr self "X_train_" (VMatrix X) in
  let self := setattr self "y_train_" (VLabels y) in
  mret self.

(** [self.y_train[nearest_neighbors]] and the vote of line 118: the most
    common label. Rows of a matrix are not hashable, so [Counter] raises
    [TypeError] on them. *)
Definition vote (y_train : value) (nearest_neighbors : list nat)
    : result label :=
  match y_train with
  | VLabels y_train =>
      k_nearest_labels ← iloc y_train nearest_neighbors;
      let counts := most_common_1 (Counter k_nearest_labels) in
      c ← of_option IndexError (counts !! 0%nat);
      mret c.1
  | VMatrix rows =>
      k_nearest_rows ← iloc rows nearest_neighbors;
      match k_nearest_rows with
      | [] => Err IndexError
      | _ => Err TypeError
      end
  end.

(** Lines 114-118 at row [n]: [counts[0][0]]. *)
Definition nearest_label (self : KNearestNeighbors)
    (distances : list (list Q)) (n : nat) : result label :=
  row ← of_option IndexError (distances !! n);
  let nearest_neighbors := slice_to (argsort Qle row) (n_neighbors self) in
  y_train ← getattr self "y_train";
  vote y_train nearest_neighbors.

(** The body of the loop of lines 112-119, at row [n]. *)
Definition predict_step `{Conversions} (self : KNearestNeighbors)
    (distances : list (list Q)) (y_pred : list Q) (n : nat)
    : result (list Q) :=
  l ← nearest_label self distances n;
  z ← int_of_label l;
  f ← float_of_int z;
  mret (<[n := f]> y_pred).

Fixpoint predict_loop `{Conversions} (self : KNearestNeighbors)
    (distances : list (list Q)) (y_pred : list Q) (rows : list nat)
    : result (list Q) :=
  match rows with
  | [] => Ok y_pred
  | n :: rows' =>
      y_pred ← predict_step self distances y_pred n;
      predict_loop self distances y_pred rows'
  end.

(** Lines 92-121. *)
Definition predict `{Conversions} (self : KNearestNeighbors)
    (X : list (list Q)) : result (list Q) :=
  _ ← check_is_fitted self ["X_train_"; "y_test_"];
  X ← check_array X;
  let y_pred := replicate (length X) 0%Q in
  let N := length X in
  X_train_ ← getattr self "X_train_";
  distances ← pairwise_distances X X_train_;
  predict_loop self distances y_pred (seq 0 N).

(** [accuracy_score(y, y_pred)] with a float [y_pred]: the share of
    positions where the two agree as float64, to which numpy takes an
    integer label first. Text against floats, and vectors of two lengths,
    are a [ValueError]. *)
Definition label_matches (l : label) (p : Q) : bool :=
  match l with
  | LInt z =>
      match float_of_int z with
      | Ok f => Qeq_bool f p
      | Err _ => false
      end
  | LFloat q => Qeq_bool q p
  | LStr _ => false
  end.

Definition hits (y : list label) (y_pred : list Q) : nat :=
  length (filter (λ p, label_matches p.1 p.2 = true) (zip y y_pred)).

Definition accuracy_score (y : list label) (y_pred : list Q) : result Q :=
  if decide (length y = length y_pred) then
    if forallb (λ l, match l with LStr _ => false | _ => true end) y then
      Ok (Z.of_nat (hits y y_pred) # Pos.of_nat (length y))
    else Err ValueError
  else Err ValueError.

(** Lines 123-143. *)
Definition score `{Conversions} (self : KNearestNeighbors)
    (X : list (list Q)) (y : list label) : result Q :=
  X ← check_array X;
  _ ← check_classification_targets y;
  y_pred ← predict self X;
  accuracy_score y y_pred.

(** ** The words of the specification *)

(** The labels of the rows dated in month [p], where row [i] has label
    [labels !! i] and date [v !! i]. *)
Definition ids_of_month (labels : list cell) (v : list Timestamp)
    (p : Period) : list cell :=
  (filter (λ r, to_period_M r.2 = p) (zip labels v)).*1.

(** The pair [split] yields at position [i], from the sorted labels and
    dates and the months in order. *)
Definition pair_at (labels : list cell) (v : list Timestamp)
    (months : list Period) (i : nat) : list cell * list cell :=
  (ids_of_month labels v (months !!! i),
   ids_of_month labels v (months !!! S i)).

(** [year * 12 + month], the count of months a timestamp lies in. *)
Definition month_number (t : Timestamp) : Z := year t * 12 + month t.

(** Row [n] holds [f]: the float made of the int made of the label that
    the neighbours of row [n] vote for. *)
Definition stored `{Conversions} (self : KNearestNeighbors) (distances : list (list Q))
    (n : nat) (f : Q) : Prop :=
  ∃ (l : label) (z : Z),
    nearest_label self distances n = Ok l ∧
    int_of_label l = Ok z ∧ float_of_int z = Ok f.

(** A calendar month, from January (1) to December (12): what the
    [month] of a timestamp that pandas made is. *)
Definition calendar_month (t : Timestamp) : Prop := 1 ≤ month t ≤ 12.

(** The number of elements of [labels] equal to [l]. *)
Definition count_of (l : label) (labels : list label) : nat :=
  length (filter (λ x, label_eqb l x = true) labels).

(** The count that a [Counter] holds for [l]: that of its first entry
    with a key equal to [l], and 0 when it has none. *)
Fixpoint count_in (c : list (label * nat)) (l : label) : nat :=
  match c with
  | [] => 0%nat
  | (k, n) :: c' => if label_eqb k l then n else count_in c' l
  end.

(** ** Tables and classifiers of the examples *)

(** No text and no integer converts: the examples hold timestamps. *)
Definition no_text : Conversions :=
  mkConversions (λ _, None) (λ _, None) (λ _, None).

Definition date (y m d : Z) : Timestamp := mkTimestamp y m d 0.

(** Rows dated from November 2020 to March 2021, not in chronological
    order, once with the dates in a column ["date"] under integer row
    labels, once with the dates as row labels. *)
Definition five_months : list Timestamp :=
  [date 2021 1 10; date 2020 11 5; date 2021 3 1; date 2020 12 24;
   date 2021 2 14; date 2020 11 30; date 2021 1 1; date 2021 3 31].

Definition X_by_column : DataFrame :=
  mkDataFrame (CInt <$> [10; 11; 12; 13; 14; 15; 16; 17])
              {[ "date" := CTime <$> five_months ]}.

Definition X_by_index : DataFrame :=
  mkDataFrame (CTime <$> five_months)
              {[ "val" := CInt <$> [0; 1; 2; 3; 4; 5; 6; 7] ]}.

(** The pairs of [split] on [X_by_column]. *)
Definition five_month_pairs : list (list cell * list cell) :=
  [(CInt <$> [11; 15], CInt <$> [13]);
   (CInt <$> [13], CInt <$> [16; 10]);
   (CInt <$> [16; 10], CInt <$> [14]);
   (CInt <$> [14], CInt <$> [12; 17])].

(** Two rows under one row label, a month apart. *)
Definition X_same_label : DataFrame :=
  mkDataFrame [CInt 7; CInt 7]
              {[ "date" := [CTime (date 2021 1 15); CTime (date 2021 2 15)] ]}.

(** Three training rows and their labels. *)
Definition X_train : list (list Q) := [[0; 0]; [1; 1]; [3; 3]]%Q.
Definition y_train : list label := [LInt 5; LInt 7; LInt 7].

(** An instance whose attributes were set by hand to the names [predict]
    reads: [X_train_], [y_test_] and [y_train]. *)
Definition by_hand (k : Z) (y : list label) : KNearestNeighbors :=
  setattr (setattr (setattr (init k) "X_train_" (VMatrix X_train))
                   "y_test_" (VLabels y)) "y_train" (VLabels y).

(** The column-dated table without the rows of January and February:
    November, December and March. *)
Definition X_with_gap : DataFrame :=
  mkDataFrame (CInt <$> [0; 1; 2; 3])
              {[ "date" := CTime <$> [date 2021 3 1; date 2020 11 5;
                                      date 2020 12 24; date 2020 11 30] ]}.

(** Three rows of one month. *)
Definition X_one_month : DataFrame :=
  mkDataFrame (CInt <$> [0; 1; 2])
              {[ "date" := CTime <$> [date 2021 3 9; date 2021 3 1;
                                      date 2021 3 31] ]}.

(** The pairs of [split] on [X_with_gap]: (November, December) and
    (December, March). *)
Definition gap_pairs : list (list cell * list cell) :=
  [(CInt <$> [1; 3], CInt <$> [2]); (CInt <$> [2], CInt <$> [0])].

(** * Properties *)

(** ** The result monad *)

(** One step of a computation in [result], once its head is known. *)
Ltac run :=
  cbn [mbind mret result_bind result_ret of_option td_values td_iloc].

Lemma bind_Ok {A B} (f : A → result B) (r : result A) (b : B) :
  r ≫= f = Ok b ↔ ∃ a, r = Ok a ∧ f a = Ok b.
Proof.
  destruct r as [a|e]; simpl.
  - split; [eauto | intros (a' & [= <-] & ?); done].
  - split; [done | intros (a' & [=] & _)].
Qed.

Lemma of_option_Ok {A} (e : exn) (o : option A) (a : A) :
  of_option e o = Ok a ↔ o = Some a.
Proof. destruct o; simpl; split; congruence. Qed.

Section mapM_result.
Context {A B : Type} (f : A → result B).

Lemma mapM_Ok_fmap (g : A → B) (l : list A) :
  (∀ x, x ∈ l → f x = Ok (g x)) → mapM f l = Ok (g <$> l).
Proof.
  induction l as [|x l IH]; intros Hf; [done|].
  cbn. rewrite (Hf x) by left. cbn.
  rewrite IH; [done|]. intros y Hy. apply Hf. by right.
Qed.

Lemma mapM_Ok_Forall2 (l : list A) (k : list B) :
  mapM f l = Ok k → Forall2 (λ x y, f x = Ok y) l k.
Proof.
  revert k. induction l as [|x l IH]; intros k; cbn.
  - intros [= <-]. constructor.
  - intros (y & Hy & (k' & Hk' & [= <-])%bind_Ok)%bind_Ok.
    constructor; auto.
Qed.

Lemma mapM_Ok_length (l : list A) (k : list B) :
  mapM f l = Ok k → length k = length l.
Proof. intros Hk%mapM_Ok_Forall2. symmetry. by eapply Forall2_length. Qed.

End mapM_result.

(** ** The stable sort *)

Section stable_sort_facts.
Context {A : Type} (R : relation A) `{∀ x y, Decision (R x y)}.

Lemma sort_insert_Permutation (x : A) (l : list A) :
  sort_insert R x l ≡ₚ x :: l.
Proof.
  induction l as [|y l IH]; [done|].
  simpl. case_decide; [done|]. by rewrite IH, Permutation_swap.
Qed.

Lemma stable_sort_Permutation (l : list A) : stable_sort R l ≡ₚ l.
Proof.
  induction l as [|x l IH]; [done|].
  simpl. by rewrite sort_insert_Permutation, IH.
Qed.

Lemma Sorted_sort_insert `{!Total R} (x : A) (l : list A) :
  Sorted R l → Sorted R (sort_insert R x l).
Proof.
  induction 1 as [|y l Hl IH Hhd]; simpl; [by repeat constructor|].
  case_decide as Hxy.
  - by repeat constructor.
  - constructor; [done|].
    destruct Hhd as [|z l' Hyz]; simpl.
    + constructor. by destruct (total R x y).
    + case_decide; constructor; [by destruct (total R x y) | done].
Qed.

Lemma Sorted_stable_sort `{!Total R} (l : list A) : Sorted R (stable_sort R l).
Proof.
  induction l; simpl; [constructor | by apply Sorted_sort_insert].
Qed.

Lemma StronglySorted_stable_sort `{!Total R, !Transitive R} (l : list A) :
  StronglySorted R (stable_sort R l).
Proof. apply Sorted_StronglySorted; [done | apply Sorted_stable_sort]. Qed.
End stable_sort_facts.

(** ** Chronological order *)

Global Instance ts_le_total : Total ts_le.
Proof. intros [] []; unfold ts_le; simpl; lia. Qed.

Global Instance ts_le_refl : Reflexive ts_le.
Proof. intros []; unfold ts_le; simpl; lia. Qed.

Global Instance ts_le_trans : Transitive ts_le.
Proof. intros [] [] []; unfold ts_le; simpl; lia. Qed.

Lemma ts_le_antisym (a b : Timestamp) : ts_le a b → ts_le b a → a = b.
Proof.
  destruct a, b; unfold ts_le; simpl; intros ??.
  f_equal; lia.
Qed.

Global Instance by_value_total {A} (R : relation A) `{!Total R} :
  Total (by_value R).
Proof. intros p q. apply (total R). Qed.

Global Instance by_value_trans {A} (R : relation A) `{!Transitive R} :
  Transitive (by_value R).
Proof. intros p q r. unfold by_value. by etrans. Qed.

Global Instance Qle_total : Total Qle.
Proof. intros a b. destruct (Qlt_le_dec a b); [left; by apply Qlt_le_weak | by right]. Qed.

Global Instance Qle_transitive : Transitive Qle.
Proof. intros a b c. apply Qle_trans. Qed.

(** A later timestamp lies in the same month or in a later one. *)
Lemma to_period_M_mono (a b : Timestamp) :
  ts_le a b → period_le (to_period_M a) (to_period_M b).
Proof. unfold ts_le, period_le, to_period_M; simpl; lia. Qed.

Lemma period_le_neq_lt (p q : Period) : period_le p q → p ≠ q → period_lt p q.
Proof.
  destruct p as [y m], q as [y' m']; unfold period_le, period_lt; simpl.
  intros Hle Hne.
  destruct (decide (y = y')) as [->|]; [|lia].
  destruct (decide (m = m')) as [->|]; [done | lia].
Qed.

Lemma period_lt_irrefl (p : Period) : ¬ period_lt p p.
Proof. unfold period_lt; lia. Qed.

Global Instance period_lt_trans : Transitive period_lt.
Proof. intros [] [] []; unfold period_lt; simpl; lia. Qed.

(** ** Positional selection *)

Section iloc_facts.
Context {A : Type}.
Implicit Types (l : list A) (positions : list nat).

Lemma iloc_Ok l positions l' :
  iloc l positions = Ok l' ↔ Forall2 (λ i x, l !! i = Some x) positions l'.
Proof. unfold iloc. by rewrite of_option_Ok, mapM_Some. Qed.

Lemma iloc_length l positions l' :
  iloc l positions = Ok l' → length l' = length positions.
Proof. intros Hl%iloc_Ok. symmetry. by eapply Forall2_length. Qed.

Lemma iloc_in_range l positions :
  Forall (λ i, (i < length l)%nat) positions → ∃ l', iloc l positions = Ok l'.
Proof.
  intros Hpos. destruct (mapM (λ i, l !! i) positions) as [l'|] eqn:Hm.
  - exists l'. unfold iloc. by rewrite Hm.
  - apply mapM_None_1, Exists_exists in Hm as (i & Hi & Hnone).
    rewrite Forall_forall in Hpos. apply Hpos in Hi.
    apply lookup_ge_None in Hnone. lia.
Qed.

Lemma lookup_seq_all l : (λ i, l !! i) <$> seq 0 (length l) = Some <$> l.
Proof.
  apply list_eq. intros i. rewrite !list_lookup_fmap.
  destruct (decide (i < length l)%nat) as [Hi|Hi].
  - rewrite lookup_seq_lt by done. simpl.
    destruct (lookup_lt_is_Some_2 l i Hi) as [x Hx]. by rewrite Hx.
  - rewrite lookup_seq_ge by lia. by rewrite lookup_ge_None_2 by lia.
Qed.

Lemma iloc_fmap_lookup l positions l' :
  iloc l positions = Ok l' → Some <$> l' = (λ i, l !! i) <$> positions.
Proof.
  intros Hl%iloc_Ok. induction Hl as [|i x ?? Hi _ IH]; [done|].
  rewrite !fmap_cons. by rewrite Hi, IH.
Qed.

Lemma omap_id_Some l : omap id (Some <$> l) = l.
Proof. induction l as [|x l IH]; [done|]. cbn. by rewrite IH. Qed.

(** Selecting at a permutation of all positions permutes the list. *)
Lemma iloc_Permutation l positions l' :
  positions ≡ₚ seq 0 (length l) → iloc l positions = Ok l' → l' ≡ₚ l.
Proof.
  intros Hperm Heq%iloc_fmap_lookup.
  apply (fmap_Permutation (λ i, l !! i)) in Hperm.
  rewrite lookup_seq_all, <-Heq in Hperm.
  apply (omap_Permutation id) in Hperm.
  by rewrite !omap_id_Some in Hperm.
Qed.

Lemma iloc_elem_of l positions l' x :
  iloc l positions = Ok l' → x ∈ l' → x ∈ l.
Proof.
  intros Hl%iloc_Ok Hx. induction Hl as [|i y ?? Hi _ IH].
  - by apply not_elem_of_nil in Hx.
  - apply elem_of_cons in Hx as [->|Hx]; [|auto].
    by eapply list_elem_of_lookup_2.
Qed.
End iloc_facts.

Lemma iloc_zip {A B} (a : list A) (b : list B) positions a' b' :
  iloc a positions = Ok a' → iloc b positions = Ok b' →
  iloc (zip a b) positions = Ok (zip a' b').
Proof.
  rewrite !iloc_Ok. intros Ha. revert b'.
  induction Ha as [|i x ?? Hi _ IH]; intros b' Hb; inversion Hb; subst.
  - constructor.
  - simpl. constructor; [|by apply IH].
    apply lookup_zip_Some. done.
Qed.

(** ** [argsort] *)

Section argsort_facts.
Context {A : Type} (R : relation A) `{∀ x y, Decision (R x y)}.
Implicit Types v : list A.

Lemma argsort_Permutation v : argsort R v ≡ₚ seq 0 (length v).
Proof.
  unfold argsort. rewrite stable_sort_Permutation.
  rewrite fst_zip; [done|]. by rewrite length_seq.
Qed.

Lemma argsort_length v : length (argsort R v) = length v.
Proof. by rewrite argsort_Permutation, length_seq. Qed.

Lemma argsort_in_range v : Forall (λ i, (i < length v)%nat) (argsort R v).
Proof.
  rewrite argsort_Permutation. apply Forall_forall.
  intros i Hi%elem_of_seq. lia.
Qed.

(** What [argsort] selects from its own argument is that argument,
    sorted. *)
Lemma iloc_argsort v :
  iloc v (argsort R v)
  = Ok (stable_sort (by_value R) (zip (seq 0 (length v)) v)).*2.
Proof.
  apply iloc_Ok. unfold argsort.
  assert (Forall (λ p, v !! p.1 = Some p.2)
            (stable_sort (by_value R) (zip (seq 0 (length v)) v))) as Hall.
  { rewrite stable_sort_Permutation. apply Forall_forall.
    intros [i x] (j & Hj)%list_elem_of_lookup_1.
    apply lookup_zip_Some in Hj as [[-> _]%lookup_seq Hx]. done. }
  induction Hall as [|[i x] sp Hix _ IH]; [constructor|].
  rewrite !fmap_cons. by constructor.
Qed.

Lemma iloc_argsort_sorted `{!Total R, !Transitive R} v v' :
  iloc v (argsort R v) = Ok v' → StronglySorted R v'.
Proof.
  rewrite iloc_argsort. intros [= <-].
  eapply (StronglySorted_fmap snd (by_value R) R); [by intros ??|].
  apply StronglySorted_stable_sort; apply _.
Qed.
End argsort_facts.

(** ** [unique] *)

Section unique_facts.
Context {A : Type} `{EqDecision A}.
Implicit Types (l seen : list A).

Lemma elem_of_unique_from seen l x :
  x ∈ unique_from seen l ↔ x ∈ l ∧ x ∉ seen.
Proof.
  revert seen. induction l as [|y l IH]; intros seen; simpl.
  - rewrite elem_of_nil. naive_solver.
  - case_decide as Hy.
    + rewrite IH, elem_of_cons. naive_solver.
    + rewrite !elem_of_cons, IH, not_elem_of_cons.
      destruct (decide (x = y)); naive_solver.
Qed.

Lemma NoDup_unique_from seen l : NoDup (unique_from seen l).
Proof.
  revert seen. induction l as [|y l IH]; intros seen; simpl; [constructor|].
  case_decide; [done|]. constructor; [|done].
  rewrite elem_of_unique_from, not_elem_of_cons. naive_solver.
Qed.

Lemma sublist_unique_from seen l : unique_from seen l `sublist_of` l.
Proof.
  revert seen. induction l as [|y l IH]; intros seen; simpl; [constructor|].
  case_decide; [by apply sublist_cons | by apply sublist_skip].
Qed.

Lemma elem_of_unique l x : x ∈ unique l ↔ x ∈ l.
Proof.
  unfold unique. rewrite elem_of_unique_from, elem_of_nil. naive_solver.
Qed.

Lemma NoDup_unique l : NoDup (unique l).
Proof. apply NoDup_unique_from. Qed.

Lemma sublist_unique l : unique l `sublist_of` l.
Proof. apply sublist_unique_from. Qed.
End unique_facts.

Lemma StronglySorted_sublist {A} (R : relation A) (l1 l2 : list A) :
  l1 `sublist_of` l2 → StronglySorted R l2 → StronglySorted R l1.
Proof.
  induction 1 as [|x l1 l2 Hsub IH|x l1 l2 Hsub IH];
    rewrite ?StronglySorted_cons; [done| |naive_solver].
  intros [Hall Hl2]. split; [|auto].
  rewrite Forall_forall in Hall |- *.
  intros y Hy. apply Hall. by eapply sublist_subseteq.
Qed.

Lemma StronglySorted_strict {A} (R R' : relation A) (l : list A) :
  (∀ x y, R x y → x ≠ y → R' x y) →
  StronglySorted R l → NoDup l → StronglySorted R' l.
Proof.
  intros HR. induction 1 as [|x l Hl IH Hall]; [constructor|].
  rewrite NoDup_cons. intros [Hx Hnd]. constructor; [auto|].
  rewrite Forall_forall in Hall |- *.
  intros y Hy. apply HR; [auto|]. by intros ->.
Qed.

(** The months of a chronologically sorted column, in order of first
    appearance, ascend strictly. *)
Lemma unique_months_ascending (v : list Timestamp) :
  StronglySorted ts_le v →
  StronglySorted period_lt (unique (to_period_M <$> v)).
Proof.
  intros Hv. eapply (StronglySorted_strict period_le).
  - apply period_le_neq_lt.
  - eapply StronglySorted_sublist; [apply sublist_unique|].
    eapply StronglySorted_fmap; [apply to_period_M_mono | done].
  - apply NoDup_unique.
Qed.

(** ** Masks *)

Lemma bool_index_month_mask (labels : list cell) (v : list Timestamp)
    (p : Period) :
  length labels = length v →
  bool_index labels ((λ m, bool_decide (m = p)) <$> (to_period_M <$> v))
  = Ok (ids_of_month labels v p).
Proof.
  intros Hlen. unfold bool_index, ids_of_month.
  rewrite !length_fmap. rewrite decide_True by done. f_equal.
  clear Hlen. revert v. induction labels as [|c labels IH]; intros [|t v]; try done.
  rewrite !fmap_cons. cbn [zip zip_with]. rewrite !filter_cons.
  specialize (IH v). cbn [snd].
  case_bool_decide; repeat case_decide; try done;
    rewrite ?fmap_cons; by rewrite IH.
Qed.

Lemma ids_of_month_Permutation labels v labels' v' p :
  zip labels' v' ≡ₚ zip labels v →
  ids_of_month labels' v' p ≡ₚ ids_of_month labels v p.
Proof. unfold ids_of_month. by intros ->. Qed.

Lemma elem_of_ids_of_month labels v p c :
  c ∈ ids_of_month labels v p ↔
  ∃ i t, labels !! i = Some c ∧ v !! i = Some t ∧ to_period_M t = p.
Proof.
  unfold ids_of_month. rewrite list_elem_of_fmap. split.
  - intros ([c' t] & -> & [Hp (i & Hi)%list_elem_of_lookup_1]%list_elem_of_filter).
    apply lookup_zip_Some in Hi as [??]. by exists i, t.
  - intros (i & t & Hc & Ht & Hp). exists (c, t). split; [done|].
    apply list_elem_of_filter. split; [done|].
    eapply list_elem_of_lookup_2, lookup_zip_Some. done.
Qed.

(** ** MonthlySplit: resolving the time values *)

Section monthly_split.
Context `{Conversions}.
Implicit Types (self : MonthlySplit) (X : DataFrame).

Lemma to_datetime_length (cells : list cell) (v : list Timestamp) :
  to_datetime cells = Ok v → length v = length cells.
Proof. apply mapM_Ok_length. Qed.

Lemma to_datetime_CTime (v : list Timestamp) : to_datetime (CTime <$> v) = Ok v.
Proof.
  unfold to_datetime. rewrite (mapM_Ok_fmap _ (λ c, match c with CTime t => t | _ => mkTimestamp 0 0 0 0 end)).
  - f_equal. rewrite <-list_fmap_compose. apply list_fmap_id.
  - by intros c (t & -> & _)%list_elem_of_fmap.
Qed.

Lemma resolve_index self X :
  time_col self = "index" →
  resolve_time_values self X = v ← to_datetime (index X); mret (DatetimeIndex v).
Proof. intros Hc. unfold resolve_time_values. by rewrite decide_True. Qed.

Lemma resolve_column self X col :
  time_col self ≠ "index" → columns X !! time_col self = Some col →
  resolve_time_values self X = v ← to_datetime col; mret (Series (index X) v).
Proof.
  intros Hc Hcol. unfold resolve_time_values.
  rewrite decide_False by done. by rewrite Hcol.
Qed.

(** ** MonthlySplit: [split] on a named column *)

Lemma split_steps (labels : list cell) (v : list Timestamp) :
  length labels = length v →
  let months := unique (to_period_M <$> v) in
  mapM (split_step labels (to_period_M <$> v) months)
       (seq 0 (length months - 1))
  = Ok (pair_at labels v months <$> seq 0 (length months - 1)).
Proof.
  intros Hlen months. apply mapM_Ok_fmap.
  intros i [_ Hi]%elem_of_seq. unfold split_step, pair_at.
  destruct (lookup_lt_is_Some_2 months i) as [p Hp]; [lia|].
  destruct (lookup_lt_is_Some_2 months (S i)) as [q Hq]; [lia|].
  rewrite (list_lookup_total_correct _ _ _ Hp).
  rewrite (list_lookup_total_correct _ _ _ Hq).
  replace (i + 1)%nat with (S i) by lia. rewrite Hp, Hq. cbn.
  by rewrite !bool_index_month_mask.
Qed.

(** [split] on a column of dates: the rows are sorted by date, labels
    and dates together, and the pairs are read off the sorted rows. *)
Lemma split_sorted_rows self X col v :
  time_col self ≠ "index" → columns X !! time_col self = Some col →
  to_datetime col = Ok v → length col = length (index X) →
  ∃ labels' v',
    zip labels' v' ≡ₚ zip (index X) v ∧ v' ≡ₚ v ∧
    length labels' = length v' ∧ StronglySorted ts_le v' ∧
    split self X
    = Ok (pair_at labels' v' (unique (to_period_M <$> v'))
            <$> seq 0 (length (unique (to_period_M <$> v')) - 1)).
Proof.
  intros Hc Hcol Hv Hlen.
  pose proof (to_datetime_length _ _ Hv) as Hlenv.
  destruct (iloc_in_range (index X) (argsort ts_le v)) as [labels' Hlabels'].
  { eapply Forall_impl; [apply argsort_in_range|]. simpl. lia. }
  pose proof (iloc_argsort ts_le v) as Hv'.
  set (v' := (stable_sort (by_value ts_le) (zip (seq 0 (length v)) v)).*2) in *.
  exists labels', v'. split_and!.
  - eapply iloc_Permutation; [|by apply iloc_zip].
    rewrite (argsort_Permutation ts_le), length_zip. f_equiv. lia.
  - eapply iloc_Permutation; [apply (argsort_Permutation ts_le) | done].
  - apply iloc_length in Hlabels'. apply iloc_length in Hv'. congruence.
  - exact (iloc_argsort_sorted ts_le v v' Hv').
  - unfold split. rewrite (resolve_column _ _ col) by done.
    rewrite Hv. run. rewrite Hlabels'. run.
    rewrite Hv'. run. apply split_steps.
    apply iloc_length in Hlabels'. apply iloc_length in Hv'. congruence.
Qed.

(** The pairs of [split] on a named column, said without the sort: one
    pair for each two neighbours in the ascending list of the months
    that occur, made of the labels of the rows of the two months. *)
Lemma split_column_spec self X col v :
  time_col self ≠ "index" → columns X !! time_col self = Some col →
  to_datetime col = Ok v → length col = length (index X) →
  ∃ months pairs,
    split self X = Ok pairs ∧
    StronglySorted period_lt months ∧
    (∀ p, p ∈ months ↔ p ∈ to_period_M <$> v) ∧
    length pairs = (length months - 1)%nat ∧
    ∀ i p q, months !! i = Some p → months !! S i = Some q →
      ∃ train test, pairs !! i = Some (train, test) ∧
        train ≡ₚ ids_of_month (index X) v p ∧
        test ≡ₚ ids_of_month (index X) v q.
Proof.
  intros Hc Hcol Hv Hlen.
  destruct (split_sorted_rows self X col v) as
    (labels' & v' & Hzip & Hperm & Hlen' & Hsorted & Hsplit); [done..|].
  set (months := unique (to_period_M <$> v')) in *.
  exists months, (pair_at labels' v' months <$> seq 0 (length months - 1)).
  split_and!; [done| | | |].
  - by apply unique_months_ascending.
  - intros p. unfold months. by rewrite elem_of_unique, Hperm.
  - by rewrite length_fmap, length_seq.
  - intros i p q Hp Hq.
    pose proof (lookup_lt_Some _ _ _ Hq) as Hi.
    eexists _, _. split.
    + rewrite list_lookup_fmap, lookup_seq_lt by lia. done.
    + simpl. rewrite (list_lookup_total_correct _ _ _ Hp).
      rewrite (list_lookup_total_correct _ _ _ Hq).
      split; by apply ids_of_month_Permutation.
Qed.
End monthly_split.

(** ** Strictly ascending lists *)

Lemma StronglySorted_lookup_lt {A} (R : relation A) (l : list A) i j x y :
  StronglySorted R l → l !! i = Some x → l !! j = Some y → (i < j)%nat →
  R x y.
Proof.
  intros Hl. revert i j. induction Hl as [|z l Hl IH Hall]; [done|].
  intros [|i] [|j] Hi Hj Hij; simplify_eq/=; try lia.
  - rewrite Forall_forall in Hall. apply Hall. by eapply list_elem_of_lookup_2.
  - eapply IH; eauto with lia.
Qed.

Lemma ascending_months_NoDup (months : list Period) :
  StronglySorted period_lt months → NoDup months.
Proof.
  induction 1 as [|p months _ IH Hall]; constructor; [|done].
  intros Hp. rewrite Forall_forall in Hall.
  by apply (period_lt_irrefl p), Hall.
Qed.

(** A month with an earlier and a later one beside it in the list is
    neither its first nor its last entry. *)
Lemma ascending_months_inner (months : list Period) i p p0 p1 :
  StronglySorted period_lt months → months !! i = Some p →
  p0 ∈ months → period_lt p0 p → p1 ∈ months → period_lt p p1 →
  (0 < i ∧ S i < length months)%nat.
Proof.
  intros Hsorted Hi [i0 Hi0]%list_elem_of_lookup_1 Hp0
         [i1 Hi1]%list_elem_of_lookup_1 Hp1.
  assert (i0 < i)%nat.
  { destruct (decide (i0 < i)%nat); [done|]. exfalso.
    destruct (decide (i0 = i)) as [->|]; simplify_eq.
    - by apply (period_lt_irrefl p).
    - apply (period_lt_irrefl p). etrans; [|exact Hp0].
      eapply (StronglySorted_lookup_lt _ months i i0); eauto with lia. }
  assert (i < i1)%nat.
  { destruct (decide (i < i1)%nat); [done|]. exfalso.
    destruct (decide (i1 = i)) as [->|]; simplify_eq.
    - by apply (period_lt_irrefl p).
    - apply (period_lt_irrefl p). etrans; [exact Hp1|].
      eapply (StronglySorted_lookup_lt _ months i1 i); eauto with lia. }
  apply lookup_lt_Some in Hi1. lia.
Qed.

(** ** Row labels of a month *)

Lemma ids_of_month_sublist labels v p :
  ids_of_month labels v p `sublist_of` labels.
Proof.
  unfold ids_of_month. revert v.
  induction labels as [|c labels IH]; intros [|t v]; cbn [zip zip_with];
    try (rewrite filter_nil; apply sublist_nil_l).
  rewrite filter_cons. case_decide; rewrite ?fmap_cons.
  - apply sublist_skip, IH.
  - apply sublist_cons, IH.
Qed.

Lemma ids_of_month_NoDup labels v p :
  NoDup labels → NoDup (ids_of_month labels v p).
Proof. intros Hnd. exact (sublist_NoDup _ _ Hnd (ids_of_month_sublist _ _ _)). Qed.

(** Under distinct row labels a label belongs to one month. *)
Lemma ids_of_month_inj labels v p q r :
  NoDup labels → r ∈ ids_of_month labels v p → r ∈ ids_of_month labels v q →
  p = q.
Proof.
  intros Hnd (i & t & Hi & Ht & <-)%elem_of_ids_of_month
             (j & u & Hj & Hu & <-)%elem_of_ids_of_month.
  assert (i = j) as -> by eauto using NoDup_lookup. congruence.
Qed.

(** ** Earliest and latest timestamp *)

Lemma ts_min_spec (l : list Timestamp) (m : Timestamp) :
  ts_min l = Some m → m ∈ l ∧ ∀ t, t ∈ l → ts_le m t.
Proof.
  revert m. induction l as [|t l IH]; intros m; simpl; [done|].
  destruct (ts_min l) as [m'|] eqn:Hm'.
  - destruct (IH m' eq_refl) as [Hin Hle]. intros [= <-]. case_decide as Htm.
    + split; [left|]. intros u [->|Hu]%elem_of_cons; [done|].
      etrans; [exact Htm | auto].
    + split; [by right|]. intros u [->|Hu]%elem_of_cons; [|auto].
      by destruct (total ts_le m' t).
  - destruct l; [|simpl in Hm'; destruct (ts_min l); done].
    intros [= <-]. split; [left|]. by intros u ->%list_elem_of_singleton.
Qed.

Lemma ts_max_spec (l : list Timestamp) (m : Timestamp) :
  ts_max l = Some m → m ∈ l ∧ ∀ t, t ∈ l → ts_le t m.
Proof.
  revert m. induction l as [|t l IH]; intros m; simpl; [done|].
  destruct (ts_max l) as [m'|] eqn:Hm'.
  - destruct (IH m' eq_refl) as [Hin Hle]. intros [= <-]. case_decide as Htm.
    + split; [left|]. intros u [->|Hu]%elem_of_cons; [done|].
      etrans; [auto | exact Htm].
    + split; [by right|]. intros u [->|Hu]%elem_of_cons; [|auto].
      by destruct (total ts_le m' t).
  - destruct l; [|simpl in Hm'; destruct (ts_max l); done].
    intros [= <-]. split; [left|]. by intros u ->%list_elem_of_singleton.
Qed.

Lemma ts_min_is_Some (l : list Timestamp) : l ≠ [] → is_Some (ts_min l).
Proof. destruct l; [done|]. simpl. destruct (ts_min l); eauto. Qed.

Lemma ts_max_is_Some (l : list Timestamp) : l ≠ [] → is_Some (ts_max l).
Proof. destruct l; [done|]. simpl. destruct (ts_max l); eauto. Qed.

Lemma ts_min_earliest (l : list Timestamp) (lo : Timestamp) :
  lo ∈ l → (∀ t, t ∈ l → ts_le lo t) → ts_min l = Some lo.
Proof.
  intros Hin Hle. destruct (ts_min_is_Some l) as [m Hm].
  { intros ->. by apply not_elem_of_nil in Hin. }
  destruct (ts_min_spec l m Hm) as [Hm_in Hm_le].
  rewrite Hm. f_equal. apply ts_le_antisym; auto.
Qed.

Lemma ts_max_latest (l : list Timestamp) (hi : Timestamp) :
  hi ∈ l → (∀ t, t ∈ l → ts_le t hi) → ts_max l = Some hi.
Proof.
  intros Hin Hle. destruct (ts_max_is_Some l) as [m Hm].
  { intros ->. by apply not_elem_of_nil in Hin. }
  destruct (ts_max_spec l m Hm) as [Hm_in Hm_le].
  rewrite Hm. f_equal. apply ts_le_antisym; auto.
Qed.

(** ** MonthlySplit: the claims *)

Section monthly_split_claims.
Context `{Conversions}.
Implicit Types (self : MonthlySplit) (X : DataFrame).

Lemma split_resolve_Err self X e :
  resolve_time_values self X = Err e → split self X = Err e.
Proof. intros Hr. unfold split. by rewrite Hr. Qed.

Lemma get_n_splits_resolve_Err self X e :
  resolve_time_values self X = Err e → get_n_splits self X = Err e.
Proof. intros Hr. unfold get_n_splits. by rewrite Hr. Qed.

(** C8. When the time source names a column that the table does not
    have, [get_n_splits] and [split] both raise [ValueError]. *)
Theorem missing_column_raises self X :
  time_col self ≠ "index" → columns X !! time_col self = None →
  get_n_splits self X = Err ValueError ∧ split self X = Err ValueError.
Proof.
  intros Hc Hcol.
  assert (resolve_time_values self X = Err ValueError) as Hr.
  { unfold resolve_time_values. rewrite decide_False by done. by rewrite Hcol. }
  split; [by apply get_n_splits_resolve_Err | by apply split_resolve_Err].
Qed.

(** C4. On a table whose time values resolve, [get_n_splits] returns the
    difference of [year * 12 + month] between the latest and the earliest
    timestamp, or zero when that difference is negative; the result is
    never negative. *)
Theorem get_n_splits_month_difference self X td first_date last_date :
  resolve_time_values self X = Ok td →
  first_date ∈ td_values td → last_date ∈ td_values td →
  (∀ t, t ∈ td_values td → ts_le first_date t ∧ ts_le t last_date) →
  get_n_splits self X
  = Ok (NInt (Z.max (month_number last_date - month_number first_date) 0))
  ∧ 0 ≤ Z.max (month_number last_date - month_number first_date) 0.
Proof.
  intros Hr Hfirst Hlast Hbounds. split; [|lia].
  unfold get_n_splits. rewrite Hr. run.
  rewrite (ts_min_earliest _ first_date), (ts_max_latest _ last_date).
  - unfold month_number. do 3 f_equal. lia.
  - by rewrite stable_sort_Permutation.
  - intros t. rewrite stable_sort_Permutation. naive_solver.
  - by rewrite stable_sort_Permutation.
  - intros t. rewrite stable_sort_Permutation. naive_solver.
Qed.

(** [split] under the sentinel ["index"]: the converted row labels are a
    [DatetimeIndex], and line 200 asks it for [.iloc]. *)
Lemma split_index_AttributeError self X v :
  time_col self = "index" → to_datetime (index X) = Ok v →
  split self X = Err AttributeError.
Proof.
  intros Hc Hv. unfold split. rewrite resolve_index by done.
  rewrite Hv. run.
  destruct (iloc_in_range (index X) (argsort ts_le v)) as [labels' ->]; [|done].
  eapply Forall_impl; [apply argsort_in_range|].
  simpl. rewrite (to_datetime_length _ _ Hv). lia.
Qed.

(** C2. With the sentinel ["index"] and row labels that are timestamps,
    [split] does not yield the pairs it yields on a column: it raises
    [AttributeError]. *)
Theorem split_by_index_raises X v :
  to_datetime (index X) = Ok v →
  split (mkMonthlySplit "index") X = Err AttributeError.
Proof. by apply split_index_AttributeError. Qed.

(** C3. The table of five months from November to March, dated by its
    row labels: [split] raises [AttributeError] and yields no pair. *)
Theorem five_months_by_index_no_pairs :
  split (mkMonthlySplit "index") X_by_index = Err AttributeError.
Proof. apply (split_index_AttributeError _ _ five_months); [done|]. apply to_datetime_CTime. Qed.

Lemma split_Ok_column self X pairs :
  split self X = Ok pairs →
  ∃ col v, time_col self ≠ "index" ∧ columns X !! time_col self = Some col ∧
           to_datetime col = Ok v ∧
           resolve_time_values self X = Ok (Series (index X) v).
Proof.
  intros Hs. destruct (decide (time_col self = "index")) as [Hc|Hc].
  - destruct (to_datetime (index X)) as [v|e] eqn:Hv.
    + by rewrite (split_index_AttributeError self X v) in Hs.
    + rewrite (split_resolve_Err self X e) in Hs; [done|].
      rewrite resolve_index by done. by rewrite Hv.
  - unfold split, resolve_time_values in *.
    rewrite decide_False in Hs |- * by done.
    destruct (columns X !! time_col self) as [col|]; [|done].
    destruct (to_datetime col) as [v|e] eqn:Hv; [|done].
    by exists col, v.
Qed.
End monthly_split_claims.

Section monthly_split_pairs.
Context `{Conversions}.
Implicit Types (self : MonthlySplit) (X : DataFrame).

(** [split] on a named column of resolvable dates yields exactly one pair
    for each two neighbours among the months that occur, taken in
    ascending order: the labels of the rows of the earlier month to train
    on, those of the later month to test on. *)
Theorem split_on_column_pairs_months self X col v :
  wf_frame X →
  time_col self ≠ "index" → columns X !! time_col self = Some col →
  to_datetime col = Ok v →
  ∃ months pairs,
    split self X = Ok pairs ∧
    StronglySorted period_lt months ∧
    (∀ p, p ∈ months ↔ ∃ t, t ∈ v ∧ to_period_M t = p) ∧
    length pairs = (length months - 1)%nat ∧
    ∀ i p q, months !! i = Some p → months !! S i = Some q →
      ∃ train test, pairs !! i = Some (train, test) ∧
        train ≡ₚ ids_of_month (index X) v p ∧
        test ≡ₚ ids_of_month (index X) v q.
Proof.
  intros Hwf Hc Hcol Hv.
  destruct (split_column_spec self X col v) as
    (months & pairs & Hs & Hasc & Hmem & Hlen & Hpairs); [by eauto..|].
  exists months, pairs. split_and!; [done..| |done|done].
  intros p. rewrite Hmem, list_elem_of_fmap. naive_solver.
Qed.

(** C7, amended. On a table whose row labels are pairwise distinct, every
    pair that [split] yields has a train and a test list without
    repetition and without a common label; and the label of a row whose
    month has an earlier and a later month beside it in the data is in
    the test list of exactly one pair and in the train list of exactly
    one pair, the next one. *)
Theorem split_pairs_disjoint_adjacent self X td pairs :
  wf_frame X → NoDup (index X) →
  resolve_time_values self X = Ok td → split self X = Ok pairs →
  (∀ train test, (train, test) ∈ pairs →
     NoDup train ∧ NoDup test ∧ ∀ r, r ∈ train → r ∉ test)
  ∧
  (∀ n r t t0 t1,
     index X !! n = Some r → td_values td !! n = Some t →
     t0 ∈ td_values td → period_lt (to_period_M t0) (to_period_M t) →
     t1 ∈ td_values td → period_lt (to_period_M t) (to_period_M t1) →
     ∃ i train0 test0 train1 test1,
       pairs !! i = Some (train0, test0) ∧
       pairs !! S i = Some (train1, test1) ∧
       r ∈ test0 ∧ r ∈ train1 ∧
       ∀ j train test, pairs !! j = Some (train, test) →
         (r ∈ train → j = S i) ∧ (r ∈ test → j = i)).
Proof.
  intros Hwf Hnd Hr Hs.
  destruct (split_Ok_column self X pairs Hs) as (col & v & Hc & Hcol & Hv & Hr').
  rewrite Hr' in Hr. injection Hr as <-. simpl.
  destruct (split_column_spec self X col v) as
    (months & pairs' & Hs' & Hasc & Hmem & Hlen & Hpairs); [by eauto..|].
  rewrite Hs in Hs'. injection Hs' as <-.
  pose proof (ascending_months_NoDup months Hasc) as Hmonths.
  (* every pair is the pair of two neighbouring months *)
  assert (∀ j train test, pairs !! j = Some (train, test) →
            ∃ p q, months !! j = Some p ∧ months !! S j = Some q ∧
                   train ≡ₚ ids_of_month (index X) v p ∧
                   test ≡ₚ ids_of_month (index X) v q) as Hpair.
  { intros j train test Hj. pose proof (lookup_lt_Some _ _ _ Hj) as Hlt.
    destruct (lookup_lt_is_Some_2 months j) as [p Hp]; [lia|].
    destruct (lookup_lt_is_Some_2 months (S j)) as [q Hq]; [lia|].
    destruct (Hpairs j p q Hp Hq) as (train' & test' & Hj' & ? & ?).
    simplify_eq. eauto 10. }
  split.
  - intros train test [j Hj]%list_elem_of_lookup_1.
    destruct (Hpair j train test Hj) as (p & q & Hp & Hq & Htr & Hte).
    rewrite Htr, Hte.
    split_and!; [by apply ids_of_month_NoDup..|].
    intros r Hrp Hrq. rewrite Htr in Hrp. rewrite Hte in Hrq.
    pose proof (ids_of_month_inj _ _ _ _ _ Hnd Hrp Hrq) as ->.
    assert (j = S j) by eauto using NoDup_lookup. lia.
  - intros n r t t0 t1 Hn Ht Ht0 Hlt0 Ht1 Hlt1.
    assert (to_period_M t ∈ months) as [i Hi]%list_elem_of_lookup_1.
    { apply Hmem, list_elem_of_fmap_2. by eapply list_elem_of_lookup_2. }
    destruct (ascending_months_inner months i (to_period_M t)
                (to_period_M t0) (to_period_M t1)) as [Hpos Hin];
      [done | done | by apply Hmem, list_elem_of_fmap_2 | done
      | by apply Hmem, list_elem_of_fmap_2 | done |].
    destruct i as [|i]; [lia|].
    destruct (lookup_lt_is_Some_2 months i) as [p0 Hp0]; [lia|].
    destruct (lookup_lt_is_Some_2 months (S (S i))) as [p1 Hp1]; [lia|].
    destruct (Hpairs i _ _ Hp0 Hi) as (train0 & test0 & Hj0 & _ & Htest0).
    destruct (Hpairs (S i) _ _ Hi Hp1) as (train1 & test1 & Hj1 & Htrain1 & _).
    assert (r ∈ ids_of_month (index X) v (to_period_M t)) as Hrow.
    { apply elem_of_ids_of_month. eauto. }
    exists i, train0, test0, train1, test1.
    split_and!; [done | done | by rewrite Htest0 | by rewrite Htrain1 |].
    intros j train test Hj.
    destruct (Hpair j train test Hj) as (p & q & Hp & Hq & Htr & Hte).
    split; intros Hrj.
    + rewrite Htr in Hrj.
      pose proof (ids_of_month_inj _ _ _ _ _ Hnd Hrj Hrow) as ->.
      eauto using NoDup_lookup.
    + rewrite Hte in Hrj.
      pose proof (ids_of_month_inj _ _ _ _ _ Hnd Hrj Hrow) as ->.
      assert (S j = S i) by eauto using NoDup_lookup. lia.
Qed.
End monthly_split_pairs.

(** ** KNearestNeighbors: the fitted check *)

Section classifier.
Context `{Conversions}.
Implicit Types (self : KNearestNeighbors) (X : list (list Q)) (y : list label).

Lemma check_is_fitted_missing self (attributes : list string) (name : string) :
  name ∈ attributes → attrs self !! name = None →
  check_is_fitted self attributes = Err NotFittedError.
Proof.
  intros Hin Hnone. unfold check_is_fitted.
  destruct (forallb (hasattr self) attributes) eqn:Hall; [|done].
  rewrite forallb_forall in Hall. apply list_elem_of_In, Hall in Hin.
  unfold hasattr in Hin. apply bool_decide_eq_true in Hin as [v Hv]. congruence.
Qed.

(** [predict] looks for an attribute [y_test_]; without it the fitted
    check fails, whatever else the instance holds. *)
Lemma predict_without_y_test self X :
  attrs self !! "y_test_" = None → predict self X = Err NotFittedError.
Proof.
  intros Hnone. unfold predict.
  rewrite (check_is_fitted_missing self _ "y_test_"); [done| |done].
  set_solver.
Qed.

Lemma check_array_Ok X X' : check_array X = Ok X' → X' = X ∧ X ≠ [].
Proof.
  unfold check_array. destruct X as [|r X]; [done|].
  repeat case_match; intros; by simplify_eq.
Qed.

(** [fit] sets [X_train_] and [y_train_], and nothing else. *)
Lemma fit_attrs self X y self' :
  fit self X y = Ok self' →
  n_neighbors self' = n_neighbors self ∧
  attrs self' = <["y_train_" := VLabels y]> (<["X_train_" := VMatrix X]> (attrs self)).
Proof.
  unfold fit, check_X_y.
  intros ([X' y'] & (X'' & [-> _]%check_array_Ok & Hxy)%bind_Ok & Hfit)%bind_Ok.
  case_decide; [|done]. injection Hxy as <- <-. by injection Hfit as <-.
Qed.

Lemma fit_leaves_y_test self X y self' :
  fit self X y = Ok self' → attrs self' !! "y_test_" = attrs self !! "y_test_".
Proof.
  intros [_ ->]%fit_attrs. by rewrite !lookup_insert_ne.
Qed.

(** C5. On an instance that only the constructor has touched, [predict]
    raises [NotFittedError], and so does [score] once its two input
    checks have passed. *)
Theorem not_fitted_before_fit (k : Z) X y :
  check_array X = Ok X → check_classification_targets y = Ok () →
  predict (init k) X = Err NotFittedError ∧
  score (init k) X y = Err NotFittedError.
Proof.
  intros HX Hy.
  assert (predict (init k) X = Err NotFittedError) as Hp.
  { apply predict_without_y_test. apply lookup_empty. }
  split; [done|]. unfold score. rewrite HX. run. rewrite Hy. run.
  by rewrite Hp.
Qed.

(** C1. After [fit] on a fresh instance [predict] does not return the
    labels of the training rows: it raises [NotFittedError] on every
    query, since [fit] never sets the [y_test_] that [predict] asks for. *)
Theorem predict_after_fit_raises (k : Z) X y self Xq :
  fit (init k) X y = Ok self → predict self Xq = Err NotFittedError.
Proof.
  intros Hfit. apply predict_without_y_test.
  rewrite (fit_leaves_y_test _ _ _ _ Hfit). apply lookup_empty.
Qed.

(** C6. After [fit] on a fresh instance [score] returns no value: on
    inputs that pass its checks it raises the [NotFittedError] of
    [predict]. *)
Theorem score_after_fit_raises (k : Z) X y self Xq yq :
  fit (init k) X y = Ok self →
  (∀ q, score self Xq yq ≠ Ok q) ∧
  (check_array Xq = Ok Xq → check_classification_targets yq = Ok () →
   score self Xq yq = Err NotFittedError).
Proof.
  intros Hfit.
  assert (∀ X', predict self X' = Err NotFittedError) as Hp.
  { intros X'. apply predict_without_y_test.
    rewrite (fit_leaves_y_test _ _ _ _ Hfit). apply lookup_empty. }
  split.
  - intros q. unfold score.
    intros (X' & _ & (? & _ & (y_pred & Hpred & _)%bind_Ok)%bind_Ok)%bind_Ok.
    by rewrite Hp in Hpred.
  - intros HX Hy. unfold score. rewrite HX. run. rewrite Hy. run.
    by rewrite Hp.
Qed.

(** C10. After [fit] on a fresh instance no label reaches the [int] of
    line 119: [predict] returns no vector, and the vote of lines 114-118
    yields no label on any distances, since it reads [self.y_train] and
    [fit] stores the labels as [y_train_]. *)
Theorem fitted_predict_coerces_no_label (k : Z) X y self Xq :
  fit (init k) X y = Ok self →
  (∀ y_pred, predict self Xq ≠ Ok y_pred) ∧
  (∀ distances n l, nearest_label self distances n ≠ Ok l).
Proof.
  intros Hfit. split.
  - intros y_pred. rewrite predict_without_y_test; [done|].
    rewrite (fit_leaves_y_test _ _ _ _ Hfit). apply lookup_empty.
  - intros distances n l. unfold nearest_label, getattr.
    apply fit_attrs in Hfit as [_ ->].
    rewrite !lookup_insert_ne by done.
    destruct (distances !! n); [|done]. simpl.
    by rewrite lookup_empty.
Qed.
End classifier.

(** ** KNearestNeighbors: the vote and the stored value *)

Lemma count_add_keys (x : label) (c : list (label * nat)) (e : label * nat) :
  e ∈ count_add x c → e.1 = x ∨ ∃ e', e' ∈ c ∧ e'.1 = e.1.
Proof.
  induction c as [|[y n] c IH]; simpl.
  - intros ->%list_elem_of_singleton. by left.
  - destruct (label_eqb y x).
    + intros [->|He]%elem_of_cons; right.
      * exists (y, n). split; [left | done].
      * exists e. split; [by right | done].
    + intros [->|He]%elem_of_cons.
      * right. exists (y, n). split; [left | done].
      * destruct (IH He) as [?|(e' & ? & ?)]; [by left|].
        right. exists e'. split; [by right | done].
Qed.

(** Every key of [Counter(labels)] is one of the labels. *)
Lemma Counter_keys (labels : list label) (e : label * nat) :
  e ∈ Counter labels → e.1 ∈ labels.
Proof.
  unfold Counter.
  assert (∀ c, (∀ e', e' ∈ c → e'.1 ∈ labels) →
            ∀ ls, ls ⊆ labels →
            e ∈ foldl (λ c x, count_add x c) c ls → e.1 ∈ labels) as Hgen.
  { intros c Hc ls. revert c Hc.
    induction ls as [|x ls IH]; intros c Hc Hsub; simpl; [by auto|].
    apply IH; [|set_solver].
    intros e' [->|(e'' & He'' & <-)]%count_add_keys; [set_solver | auto]. }
  apply (Hgen [] ltac:(by intros ? ?%not_elem_of_nil) labels). done.
Qed.

Lemma most_common_1_elem_of (c : list (label * nat)) (e : label * nat) :
  most_common_1 c !! 0%nat = Some e → e ∈ c.
Proof.
  destruct c as [|e0 c]; simpl; [done|]. intros [= <-].
  assert (∀ best, foldl (λ best e', if decide (best.2 < e'.2)%nat then e' else best)
                    best c ∈ best :: c) as Hgen.
  { induction c as [|e' c IH]; intros best; simpl; [left|].
    specialize (IH (if decide (best.2 < e'.2)%nat then e' else best)).
    case_decide; set_solver. }
  apply Hgen.
Qed.

(** The label voted for is one of the stored labels. *)
Lemma vote_elem_of (labels : list label) (nearest_neighbors : list nat)
    (l : label) :
  vote (VLabels labels) nearest_neighbors = Ok l → l ∈ labels.
Proof.
  unfold vote.
  intros (ks & Hks & (c & Hc%of_option_Ok & [= <-])%bind_Ok)%bind_Ok.
  apply most_common_1_elem_of, Counter_keys in Hc.
  by eapply iloc_elem_of.
Qed.

Section predict_facts.
Context `{Conversions}.
Implicit Types (self : KNearestNeighbors) (X : list (list Q)).

Lemma predict_step_Ok self distances y_pred n y_pred' :
  predict_step self distances y_pred n = Ok y_pred' →
  ∃ f, stored self distances n f ∧ y_pred' = <[n := f]> y_pred.
Proof.
  unfold predict_step, stored.
  intros (l & Hl & (z & Hz & (f & Hf & [= <-])%bind_Ok)%bind_Ok)%bind_Ok.
  eauto 10.
Qed.

Lemma predict_loop_spec self distances (rows : list nat) y_pred out :
  predict_loop self distances y_pred rows = Ok out →
  length out = length y_pred ∧
  ∀ n f, out !! n = Some f →
    (n ∈ rows → stored self distances n f) ∧
    (n ∉ rows → y_pred !! n = Some f).
Proof.
  revert y_pred. induction rows as [|n0 rows IH]; intros y_pred; simpl.
  - intros [= <-]. split; [done|]. intros n f Hn.
    split; [by intros ?%not_elem_of_nil | done].
  - intros (y_pred' & (f0 & Hf0 & ->)%predict_step_Ok & Hloop)%bind_Ok.
    destruct (IH _ Hloop) as [Hlen Hout].
    rewrite length_insert in Hlen. split; [done|].
    intros n f Hn. destruct (Hout n f Hn) as [Hin Hnotin]. split.
    + intros Hrows. destruct (decide (n ∈ rows)) as [|Hn']; [auto|].
      apply elem_of_cons in Hrows as [->|]; [|done].
      specialize (Hnotin Hn').
      destruct (decide (n0 < length y_pred)%nat).
      * rewrite list_lookup_insert_eq in Hnotin by done. by simplify_eq.
      * rewrite list_insert_ge in Hnotin by lia.
        apply lookup_lt_Some in Hnotin. lia.
    + intros [Hne Hn']%not_elem_of_cons.
      specialize (Hnotin Hn'). by rewrite list_lookup_insert_ne in Hnotin.
Qed.
End predict_facts.

Section predict_claims.
Context `{Conversions}.
Implicit Types (self : KNearestNeighbors) (X : list (list Q)).


End predict_claims.

(** ** The theorems at work on the example tables *)

Lemma X_by_column_wf : wf_frame X_by_column.
Proof.
  intros name col Hcol. unfold X_by_column in Hcol. simpl in Hcol.
  apply lookup_singleton_Some in Hcol as [_ <-]. reflexivity.
Defined.

Lemma X_by_column_NoDup : NoDup (index X_by_column).
Proof. refine (bool_decide_unpack _ _). vm_compute. exact I. Defined.

(** A splitter that names a column the table lacks. *)
Lemma missing_column_raises_witness :
  @get_n_splits no_text (mkMonthlySplit "day") X_by_column = Err ValueError ∧
  @split no_text (mkMonthlySplit "day") X_by_column = Err ValueError.
Proof.
  apply (@missing_column_raises no_text); [discriminate | reflexivity].
Defined.

(** The five months from November 2020 to March 2021, dated by the row
    labels: [get_n_splits] returns 4. *)
Lemma get_n_splits_five_months :
  @get_n_splits no_text (mkMonthlySplit "index") X_by_index = Ok (NInt 4).
Proof.
  apply (@get_n_splits_month_difference no_text (mkMonthlySplit "index")
           X_by_index (DatetimeIndex five_months)
           (date 2020 11 5) (date 2021 3 31)).
  - reflexivity.
  - right. left.
  - do 7 right. left.
  - intros t Ht. simpl in Ht.
    repeat (apply elem_of_cons in Ht as [->|Ht]);
      [unfold ts_le; simpl; lia..|].
    by apply not_elem_of_nil in Ht.
Defined.

(** The same dates as row labels: [split] raises. *)
Lemma split_by_index_raises_witness :
  @split no_text (mkMonthlySplit "index") X_by_index = Err AttributeError.
Proof.
  apply (@split_by_index_raises no_text X_by_index five_months). reflexivity.
Defined.

(** The same dates in the column ["date"]: four pairs, from (November,
    December) to (February, March). *)
Lemma split_on_column_five_months :
  ∃ months pairs,
    @split no_text (mkMonthlySplit "date") X_by_column = Ok pairs ∧
    StronglySorted period_lt months ∧
    (∀ p, p ∈ months ↔ ∃ t, t ∈ five_months ∧ to_period_M t = p) ∧
    length pairs = (length months - 1)%nat ∧
    ∀ i p q, months !! i = Some p → months !! S i = Some q →
      ∃ train test, pairs !! i = Some (train, test) ∧
        train ≡ₚ ids_of_month (index X_by_column) five_months p ∧
        test ≡ₚ ids_of_month (index X_by_column) five_months q.
Proof.
  apply (@split_on_column_pairs_months no_text (mkMonthlySplit "date")
           X_by_column (CTime <$> five_months) five_months).
  - exact X_by_column_wf.
  - discriminate.
  - reflexivity.
  - reflexivity.
Defined.

(** The row of 24 December 2020, label 13: tested on in the pair
    (November, December) and trained on in the pair (December, January),
    and in no other pair. *)
Lemma split_pairs_disjoint_adjacent_witness :
  (∀ train test, (train, test) ∈ five_month_pairs →
     NoDup train ∧ NoDup test ∧ ∀ r, r ∈ train → r ∉ test)
  ∧
  ∃ i train0 test0 train1 test1,
    five_month_pairs !! i = Some (train0, test0) ∧
    five_month_pairs !! S i = Some (train1, test1) ∧
    CInt 13 ∈ test0 ∧ CInt 13 ∈ train1 ∧
    ∀ j train test, five_month_pairs !! j = Some (train, test) →
      (CInt 13 ∈ train → j = S i) ∧ (CInt 13 ∈ test → j = i).
Proof.
  destruct (@split_pairs_disjoint_adjacent no_text (mkMonthlySplit "date")
              X_by_column (Series (index X_by_column) five_months)
              five_month_pairs X_by_column_wf X_by_column_NoDup
              eq_refl eq_refl) as [Hdisjoint Hadjacent].
  split; [exact Hdisjoint|].
  apply (Hadjacent 3%nat (CInt 13) (date 2020 12 24)
           (date 2020 11 5) (date 2021 3 1)).
  - reflexivity.
  - reflexivity.
  - right. left.
  - unfold period_lt. simpl. lia.
  - do 2 right. left.
  - unfold period_lt. simpl. lia.
Defined.

(** C7 as stated fails where two rows share a label: the one pair of
    [X_same_label] has the label 7 on both sides. *)
Lemma same_label_in_train_and_test :
  ∃ train test,
    @split no_text (mkMonthlySplit "date") X_same_label = Ok [(train, test)] ∧
    CInt 7 ∈ train ∧ CInt 7 ∈ test.
Proof.
  exists [CInt 7], [CInt 7]. split; [reflexivity|]. split; left.
Qed.

(** ** The theorems at work on the example classifiers *)

(** A fresh instance and a one-row query. *)
Lemma not_fitted_before_fit_witness :
  @predict no_text (init 1) [[0; 0]]%Q = Err NotFittedError ∧
  @score no_text (init 1) [[0; 0]]%Q [LInt 5] = Err NotFittedError.
Proof.
  apply (@not_fitted_before_fit no_text); reflexivity.
Defined.

(** [fit] on the three training rows, then [predict] on the first of
    them. *)
Lemma predict_after_fit_raises_witness :
  @predict no_text
    (mkKNearestNeighbors 1
       (<["y_train_" := VLabels y_train]>
          (<["X_train_" := VMatrix X_train]> ∅)))
    [[0; 0]]%Q
  = Err NotFittedError.
Proof.
  apply (@predict_after_fit_raises no_text 1 X_train y_train). reflexivity.
Defined.

Lemma score_after_fit_raises_witness :
  @score no_text
    (mkKNearestNeighbors 1
       (<["y_train_" := VLabels y_train]>
          (<["X_train_" := VMatrix X_train]> ∅)))
    [[0; 0]]%Q [LInt 5]
  = Err NotFittedError.
Proof.
  apply (@score_after_fit_raises no_text 1 X_train y_train); reflexivity.
Defined.

(** [fit] with the float labels 2.7, -2.7 and 0, then [predict] on the
    first training row: no vector, and no vote. *)
Lemma fitted_predict_coerces_no_label_witness :
  (∀ y_pred,
     @predict no_text
       (mkKNearestNeighbors 1
          (<["y_train_" := VLabels [LFloat (27 # 10); LFloat (-27 # 10); LFloat 0]]>
             (<["X_train_" := VMatrix X_train]> ∅)))
       [[0; 0]]%Q ≠ Ok y_pred) ∧
  (∀ distances n l,
     nearest_label
       (mkKNearestNeighbors 1
          (<["y_train_" := VLabels [LFloat (27 # 10); LFloat (-27 # 10); LFloat 0]]>
             (<["X_train_" := VMatrix X_train]> ∅)))
       distances n ≠ Ok l).
Proof.
  apply (@fitted_predict_coerces_no_label no_text 1 X_train
           [LFloat (27 # 10); LFloat (-27 # 10); LFloat 0]).
  reflexivity.
Defined.


(** * Further properties of the code *)

(** ** MonthlySplit: how many pairs, and how many announced *)

Section monthly_split_counts.
Context `{Conversions}.
Implicit Types (self : MonthlySplit) (X : DataFrame).

(** What an integer answer of [get_n_splits] says of the table. *)
Lemma get_n_splits_NInt self X (n : Z) :
  get_n_splits self X = Ok (NInt n) →
  ∃ td first_date last_date,
    resolve_time_values self X = Ok td ∧
    first_date ∈ td_values td ∧ last_date ∈ td_values td ∧
    (∀ t, t ∈ td_values td → ts_le first_date t ∧ ts_le t last_date) ∧
    n = Z.max (month_number last_date - month_number first_date) 0.
Proof.
  unfold get_n_splits. intros (td & Hr & Hn)%bind_Ok. revert Hn. run.
  pose proof (stable_sort_Permutation ts_le (td_values td)) as Hperm.
  set (sorted := stable_sort ts_le (td_values td)) in *.
  destruct (ts_min sorted) as [lo|] eqn:Hlo; [|by destruct (ts_max sorted)].
  destruct (ts_max sorted) as [hi|] eqn:Hhi; [|done].
  apply ts_min_spec in Hlo as [Hlo_in Hlo_le].
  apply ts_max_spec in Hhi as [Hhi_in Hhi_le].
  run. intros [= <-]. exists td, lo, hi.
  rewrite Hperm in Hlo_in, Hhi_in. split_and!; [done..| |].
  - intros t Ht. rewrite <-Hperm in Ht. split; [by apply Hlo_le | by apply Hhi_le].
  - unfold month_number. f_equal. lia.
Qed.

Lemma month_number_mono (a b : Timestamp) :
  calendar_month a → calendar_month b → ts_le a b →
  month_number a ≤ month_number b.
Proof. unfold calendar_month, ts_le, month_number. lia. Qed.

(** Strictly ascending calendar months whose numbers lie between [a] and
    [b] are at most [b - a + 1]. *)
Lemma ascending_months_count (months : list Period) (a b : Z) :
  StronglySorted period_lt months →
  Forall (λ p, 1 ≤ p.2 ≤ 12 ∧ a ≤ p.1 * 12 + p.2 ≤ b) months →
  Z.of_nat (length months) ≤ Z.max (b - a + 1) 0.
Proof.
  intros Hsorted. revert a.
  induction Hsorted as [|p months _ IH Hall]; intros a Hin; [simpl; lia|].
  apply Forall_cons in Hin as [[Hp Hpab] Hin].
  assert (Z.of_nat (length months) ≤ Z.max (b - (p.1 * 12 + p.2 + 1) + 1) 0)
    as Hlen.
  { apply IH. rewrite Forall_forall in Hall, Hin |- *.
    intros q Hq. destruct (Hin q Hq) as [Hq12 Hqab].
    specialize (Hall q Hq). unfold period_lt in Hall. lia. }
  rewrite length_cons, Nat2Z.inj_succ. lia.
Qed.
End monthly_split_counts.

Section monthly_split_more.
Context `{Conversions}.
Implicit Types (self : MonthlySplit) (X : DataFrame).

Lemma get_n_splits_extremes self X td first_date last_date :
  resolve_time_values self X = Ok td →
  first_date ∈ td_values td → last_date ∈ td_values td →
  (∀ t, t ∈ td_values td → ts_le first_date t ∧ ts_le t last_date) →
  get_n_splits self X
  = Ok (NInt (Z.max (month_number last_date - month_number first_date) 0)).
Proof.
  intros Hr Hfirst Hlast Hbounds.
  unfold get_n_splits. rewrite Hr. run.
  rewrite (ts_min_earliest _ first_date), (ts_max_latest _ last_date).
  - unfold month_number. do 3 f_equal. lia.
  - by rewrite stable_sort_Permutation.
  - intros t. rewrite stable_sort_Permutation. intros Ht. by apply Hbounds.
  - by rewrite stable_sort_Permutation.
  - intros t. rewrite stable_sort_Permutation. intros Ht. by apply Hbounds.
Qed.

(** Between timestamps with calendar months the floor of line 185 never
    applies: [get_n_splits] returns the difference of [year * 12 + month]
    between the latest and the earliest timestamp itself, which is not
    negative. *)
Theorem get_n_splits_floor_is_idle self X td first_date last_date :
  resolve_time_values self X = Ok td →
  Forall calendar_month (td_values td) →
  first_date ∈ td_values td → last_date ∈ td_values td →
  (∀ t, t ∈ td_values td → ts_le first_date t ∧ ts_le t last_date) →
  get_n_splits self X
  = Ok (NInt (month_number last_date - month_number first_date)) ∧
  0 ≤ month_number last_date - month_number first_date.
Proof.
  intros Hr Hcal Hfirst Hlast Hbounds. rewrite Forall_forall in Hcal.
  assert (month_number first_date ≤ month_number last_date) as Hle.
  { apply month_number_mono; [auto..|]. by apply Hbounds. }
  split; [|lia].
  rewrite (get_n_splits_extremes self X td first_date last_date) by done.
  do 2 f_equal. lia.
Qed.

(** Whenever [split] yields pairs and [get_n_splits] returns an integer,
    on a table of timestamps with calendar months, [split] yields at most
    as many pairs as [get_n_splits] returns. *)
Theorem split_yields_at_most_n_splits self X td pairs (n : Z) :
  wf_frame X →
  resolve_time_values self X = Ok td →
  Forall calendar_month (td_values td) →
  split self X = Ok pairs → get_n_splits self X = Ok (NInt n) →
  Z.of_nat (length pairs) ≤ n.
Proof.
  intros Hwf Hr Hcal Hs Hn. rewrite Forall_forall in Hcal.
  destruct (split_Ok_column self X pairs Hs) as (col & v & Hc & Hcol & Hv & Hr').
  destruct (get_n_splits_NInt self X n Hn) as
    (td' & lo & hi & Hr'' & Hlo & Hhi & Hbounds & ->).
  assert (td' = td) as -> by congruence.
  assert (td_values td = v) as Hvals by (rewrite Hr' in Hr; by injection Hr as <-).
  destruct (split_column_spec self X col v) as
    (months & pairs' & Hs' & Hasc & Hmem & Hlen & _); [by eauto..|].
  assert (pairs' = pairs) as -> by congruence.
  pose proof (ascending_months_count months (month_number lo) (month_number hi)
                Hasc) as Hcount.
  rewrite Hlen.
  assert (Z.of_nat (length months)
          ≤ Z.max (month_number hi - month_number lo + 1) 0); [|lia].
  apply Hcount, Forall_forall.
  intros p (t & -> & Ht)%Hmem%list_elem_of_fmap. rewrite <-Hvals in Ht.
  destruct (Hbounds t Ht) as [Hlo_t Ht_hi].
  pose proof (Hcal t Ht) as Hmonth.
  pose proof (month_number_mono lo t (Hcal lo Hlo) Hmonth Hlo_t).
  pose proof (month_number_mono t hi Hmonth (Hcal hi Hhi) Ht_hi).
  unfold calendar_month, month_number, to_period_M in *. simpl. lia.
Qed.

(** On a named column whose dates all lie in one month, and on a table
    without rows, [split] yields no pair. *)
Theorem split_one_month_yields_nothing self X col v :
  wf_frame X →
  time_col self ≠ "index" → columns X !! time_col self = Some col →
  to_datetime col = Ok v →
  (∀ t u, t ∈ v → u ∈ v → to_period_M t = to_period_M u) →
  split self X = Ok [].
Proof.
  intros Hwf Hc Hcol Hv Hsame.
  destruct (split_column_spec self X col v) as
    (months & pairs & Hs & Hasc & Hmem & Hlen & _); [by eauto..|].
  rewrite Hs. f_equal. apply nil_length_inv. rewrite Hlen.
  pose proof (ascending_months_NoDup months Hasc) as Hnd.
  destruct months as [|p [|q months]]; [done..|]. exfalso.
  assert (p = q) as ->.
  { assert (p ∈ to_period_M <$> v) as (t & -> & Ht)%list_elem_of_fmap
      by (apply Hmem; set_solver).
    assert (q ∈ to_period_M <$> v) as (u & -> & Hu)%list_elem_of_fmap
      by (apply Hmem; set_solver).
    by apply Hsame. }
  apply NoDup_cons in Hnd as [Hq _]. set_solver.
Qed.
End monthly_split_more.

(** ** KNearestNeighbors: fitting again, and the order of the checks *)

Section classifier_more.
Context `{Conversions}.
Implicit Types (self : KNearestNeighbors) (X : list (list Q)) (y : list label).

Lemma check_array_Err X (e : exn) : check_array X = Err e → e = ValueError.
Proof.
  unfold check_array. destruct X as [|r X]; [congruence|].
  repeat case_match; congruence.
Qed.

Lemma check_classification_targets_Err y (e : exn) :
  check_classification_targets y = Err e → e = ValueError.
Proof. unfold check_classification_targets. case_match; congruence. Qed.

(** [fit] on an instance that was fitted before leaves it as [fit] on
    the instance before that first fit does: the training data of the
    first fit are replaced, and an input that [fit] rejects is rejected
    the same. *)
Theorem fit_again_replaces self X1 y1 self1 X2 y2 :
  fit self X1 y1 = Ok self1 → fit self1 X2 y2 = fit self X2 y2.
Proof.
  intros [Hk Hattrs]%fit_attrs. unfold fit.
  destruct (check_X_y X2 y2) as [[X y]|e]; [|done]. run.
  unfold setattr. simpl. rewrite Hk, Hattrs. do 2 f_equal.
  apply map_eq. intros name.
  destruct (decide (name = "y_train_")) as [->|].
  { by rewrite !lookup_insert_eq. }
  do 2 rewrite (lookup_insert_ne _ "y_train_") by done.
  destruct (decide (name = "X_train_")) as [->|].
  { by rewrite !lookup_insert_eq. }
  do 2 rewrite (lookup_insert_ne _ "X_train_") by done.
  by rewrite !lookup_insert_ne by done.
Qed.

(** [score] checks its inputs before it looks at the instance: a query
    that [check_array] rejects, or labels that
    [check_classification_targets] rejects, raise [ValueError] on every
    instance, fitted or not. *)
Theorem score_checks_inputs_first self X y :
  (∀ X', check_array X ≠ Ok X') ∨ check_classification_targets y ≠ Ok () →
  score self X y = Err ValueError.
Proof.
  intros Hbad. unfold score.
  destruct (check_array X) as [X'|e] eqn:HX.
  - destruct Hbad as [Hbad|Hbad]; [by destruct (Hbad X')|]. run.
    destruct (check_classification_targets y) as [[]|e] eqn:Hy; [done|].
    by rewrite (check_classification_targets_Err _ _ Hy).
  - by rewrite (check_array_Err _ _ HX).
Qed.
End classifier_more.

(** ** KNearestNeighbors: what [predict] needs, and when it returns *)

Lemma pairwise_distances_Ok (X : list (list Q)) (Y : value)
    (distances : list (list Q)) :
  pairwise_distances X Y = Ok distances →
  ∃ Xt, Y = VMatrix Xt ∧ X ≠ [] ∧ Xt ≠ [] ∧
        check_array X = Ok X ∧ check_array Xt = Ok Xt ∧
        length (default [] (head X)) = length (default [] (head Xt)) ∧
        distances = (λ x, sq_dist x <$> Xt) <$> X.
Proof.
  unfold pairwise_distances. destruct Y as [Xt|]; [|done].
  intros (X' & HX & (Xt' & HXt & Hd)%bind_Ok)%bind_Ok.
  pose proof HX as [-> ?]%check_array_Ok.
  pose proof HXt as [-> ?]%check_array_Ok.
  case_decide; [|done]. injection Hd as <-. by exists Xt.
Qed.

Lemma check_is_fitted_Ok (self : KNearestNeighbors) (attributes : list string) :
  check_is_fitted self attributes = Ok () ↔
  ∀ name, name ∈ attributes → is_Some (attrs self !! name).
Proof.
  unfold check_is_fitted. destruct (forallb _ _) eqn:Hall.
  - split; [intros _|done]. rewrite forallb_forall in Hall.
    intros name Hin%list_elem_of_In%Hall. by apply bool_decide_eq_true in Hin.
  - split; [done|]. intros Hhas. apply not_true_iff_false in Hall.
    destruct Hall. apply forallb_forall. intros name Hin%list_elem_of_In.
    by apply bool_decide_eq_true, Hhas.
Qed.

Lemma vote_VMatrix (rows : list (list Q)) (nearest_neighbors : list nat)
    (l : label) :
  vote (VMatrix rows) nearest_neighbors ≠ Ok l.
Proof.
  unfold vote. destruct (iloc rows nearest_neighbors) as [[|r k]|e]; done.
Qed.

Lemma vote_no_neighbors (y_train : value) : vote y_train [] = Err IndexError.
Proof. by destruct y_train. Qed.

Lemma count_add_not_nil (x : label) (c : list (label * nat)) :
  count_add x c ≠ [].
Proof. destruct c as [|[y n] c]; simpl; [done|]. by destruct (label_eqb y x). Qed.

Lemma foldl_count_add_not_nil (labels : list label) (c : list (label * nat)) :
  c ≠ [] → foldl (λ c x, count_add x c) c labels ≠ [].
Proof.
  revert c. induction labels as [|y labels IH]; intros c Hc; simpl; [done|].
  apply IH, count_add_not_nil.
Qed.

Lemma Counter_not_nil (labels : list label) : labels ≠ [] → Counter labels ≠ [].
Proof.
  unfold Counter. destruct labels as [|x labels]; [done|]. intros _.
  cbn [foldl]. apply foldl_count_add_not_nil, count_add_not_nil.
Qed.

Section predict_more.
Context `{Conversions}.
Implicit Types (self : KNearestNeighbors) (X : list (list Q)).

(** [predict] once the fitted check and the checks of the query and of
    the distances have passed: the loop. *)
Lemma predict_past_checks self X (X_train_ : value) distances :
  attrs self !! "X_train_" = Some X_train_ →
  is_Some (attrs self !! "y_test_") →
  check_array X = Ok X → pairwise_distances X X_train_ = Ok distances →
  predict self X
  = predict_loop self distances (replicate (length X) 0%Q) (seq 0 (length X)).
Proof.
  intros Hattr Htest HX Hd. unfold predict.
  assert (check_is_fitted self ["X_train_"; "y_test_"] = Ok ()) as ->.
  { apply check_is_fitted_Ok. intros name Hin.
    apply elem_of_cons in Hin as [->|Hin]; [by rewrite Hattr|].
    by apply list_elem_of_singleton in Hin as ->. }
  run. rewrite HX. run. unfold getattr. rewrite Hattr. run.
  by rewrite Hd.
Qed.

Lemma predict_checks_passed self X y_pred :
  predict self X = Ok y_pred →
  ∃ X_train_ distances,
    attrs self !! "X_train_" = Some X_train_ ∧
    is_Some (attrs self !! "y_test_") ∧
    check_array X = Ok X ∧ pairwise_distances X X_train_ = Ok distances ∧
    predict_loop self distances (replicate (length X) 0%Q) (seq 0 (length X))
    = Ok y_pred.
Proof.
  unfold predict.
  intros ([] & Hfit & (X' & HX & (X_train_ &
           Hattr%of_option_Ok & (distances & Hd & Hloop)%bind_Ok)%bind_Ok)%bind_Ok)%bind_Ok.
  pose proof (proj1 (check_is_fitted_Ok _ _) Hfit) as Hhas.
  pose proof HX as [-> _]%check_array_Ok.
  exists X_train_, distances. split_and!; [done| |done..].
  apply Hhas. set_solver.
Qed.

(** C1 from the other side: [predict] returns a vector only on an
    instance that has the attributes [X_train_] (a matrix with rows),
    [y_test_] and [y_train] (a vector of labels), and whose [n_neighbors]
    is not 0. *)
Theorem predict_returns_only_with_attributes self X y_pred :
  predict self X = Ok y_pred →
  ∃ Xt labels,
    attrs self !! "X_train_" = Some (VMatrix Xt) ∧ Xt ≠ [] ∧
    is_Some (attrs self !! "y_test_") ∧
    attrs self !! "y_train" = Some (VLabels labels) ∧
    n_neighbors self ≠ 0.
Proof.
  intros Hp.
  destruct (predict_checks_passed self X y_pred Hp) as
    (X_train_ & distances & Hattr & Htest & HX & Hd & Hloop).
  destruct (pairwise_distances_Ok _ _ _ Hd) as (Xt & -> & HXne & HXt & _).
  destruct (predict_loop_spec _ _ _ _ _ Hloop) as [Hlen Hout].
  rewrite length_replicate in Hlen.
  destruct (lookup_lt_is_Some_2 y_pred 0) as [f Hf].
  { destruct X; [done|]. simpl in Hlen. lia. }
  destruct (Hout 0%nat f Hf) as [Hst _].
  destruct Hst as (l & z & Hl & _).
  { apply elem_of_seq. destruct X; [done|]. simpl. lia. }
  unfold nearest_label in Hl.
  apply bind_Ok in Hl as (row & _ & (y_tr & Hy%of_option_Ok & Hvote)%bind_Ok).
  destruct y_tr as [rows|labels]; [by apply vote_VMatrix in Hvote|].
  exists Xt, labels. split_and!; [done..|].
  intros Hk. rewrite Hk in Hvote. unfold slice_to in Hvote.
  rewrite decide_True in Hvote by done. by rewrite vote_no_neighbors in Hvote.
Qed.

(** With [n_neighbors = 0] no label is voted for: once the checks have
    passed, [predict] raises [IndexError] at [counts[0]]. *)
Theorem predict_zero_neighbors_raises self X (X_train_ : value) distances :
  n_neighbors self = 0 →
  attrs self !! "X_train_" = Some X_train_ →
  is_Some (attrs self !! "y_test_") → is_Some (attrs self !! "y_train") →
  check_array X = Ok X → pairwise_distances X X_train_ = Ok distances →
  predict self X = Err IndexError.
Proof.
  intros Hk Hattr Htest [y_tr Hy] HX Hd.
  rewrite (predict_past_checks self X X_train_ distances) by done.
  destruct (pairwise_distances_Ok _ _ _ Hd) as (Xt & -> & HXne & _ & _ & _ & _ & ->).
  destruct X as [|x X]; [done|]. simpl.
  unfold predict_step, nearest_label. simpl. run.
  unfold getattr. rewrite Hy, Hk. run.
  unfold slice_to. rewrite decide_True by done.
  by rewrite vote_no_neighbors.
Qed.
End predict_more.

Lemma pairwise_distances_checked (X Xt : list (list Q)) :
  check_array X = Ok X → check_array Xt = Ok Xt →
  length (default [] (head X)) = length (default [] (head Xt)) →
  pairwise_distances X (VMatrix Xt) = Ok ((λ x, sq_dist x <$> Xt) <$> X).
Proof.
  intros HX HXt Hcols. unfold pairwise_distances.
  rewrite HX. run. rewrite HXt. run. by rewrite decide_True.
Qed.

Lemma slice_to_positive {A} (l : list A) (k : Z) :
  1 ≤ k → l ≠ [] → slice_to l k ≠ [] ∧ slice_to l k ⊆ l.
Proof.
  intros Hk Hl. unfold slice_to. rewrite decide_True by lia.
  split; [|apply subseteq_take].
  destruct l as [|x l]; [done|].
  destruct (Z.to_nat k) as [|m] eqn:Hm; [lia|done].
Qed.

(** A vote among at least one neighbour, each a position of a label. *)
Lemma vote_Ok (labels : list label) (nearest_neighbors : list nat) :
  nearest_neighbors ≠ [] →
  Forall (λ i, (i < length labels)%nat) nearest_neighbors →
  ∃ l, vote (VLabels labels) nearest_neighbors = Ok l ∧ l ∈ labels.
Proof.
  intros Hne Hrange.
  destruct (iloc_in_range labels nearest_neighbors Hrange) as [ks Hks].
  assert (ks ≠ []) as Hks_ne.
  { apply iloc_length in Hks. destruct nearest_neighbors; [done|].
    by destruct ks. }
  assert (∃ l, vote (VLabels labels) nearest_neighbors = Ok l) as [l Hl].
  { unfold vote. rewrite Hks. run.
    pose proof (Counter_not_nil ks Hks_ne) as Hc.
    destruct (Counter ks) as [|e c]; [done|]. simpl. eauto. }
  exists l. split; [done|]. by eapply vote_elem_of.
Qed.

Section predict_returns.
Context `{Conversions}.
Implicit Types (self : KNearestNeighbors) (X : list (list Q)).

Lemma nearest_label_Ok self (distances : list (list Q)) (n : nat)
    (row : list Q) (labels : list label) :
  distances !! n = Some row → row ≠ [] →
  (length row ≤ length labels)%nat → 1 ≤ n_neighbors self →
  attrs self !! "y_train" = Some (VLabels labels) →
  ∃ l, nearest_label self distances n = Ok l ∧ l ∈ labels.
Proof.
  intros Hrow Hne Hlen Hk Hy. unfold nearest_label, getattr.
  rewrite Hrow, Hy. run.
  assert (argsort Qle row ≠ []) as Hsorted_ne.
  { intros Hnil. pose proof (argsort_length Qle row) as Hl.
    rewrite Hnil in Hl. by destruct row. }
  destruct (slice_to_positive (argsort Qle row) (n_neighbors self) Hk Hsorted_ne)
    as [Hnn_ne Hnn_sub].
  apply vote_Ok; [done|]. apply Forall_forall. intros i Hi%Hnn_sub.
  pose proof (argsort_in_range Qle row) as Hrange.
  rewrite Forall_forall in Hrange. apply Hrange in Hi. lia.
Qed.

Lemma predict_loop_Ok self (distances : list (list Q)) (rows : list nat)
    (y_pred : list Q) :
  (∀ n, n ∈ rows → ∃ f, stored self distances n f) →
  ∃ out, predict_loop self distances y_pred rows = Ok out.
Proof.
  revert y_pred. induction rows as [|n rows IH]; intros y_pred Hst; simpl.
  - eauto.
  - destruct (Hst n) as (f & l & z & Hl & Hz & Hf); [left|].
    unfold predict_step. rewrite Hl. run. rewrite Hz. run. rewrite Hf. run.
    apply IH. intros m Hm. apply Hst. by right.
Qed.

(** What it takes for [predict] to return: the three attributes it reads
    ([X_train_] a checked matrix with the query's number of columns,
    [y_test_], and [y_train] with a label for every training row), at
    least one neighbour, and labels that [int] and the float array
    accept. Then [predict] returns one entry for each row of the query. *)
Theorem predict_returns_a_vector self X (Xt : list (list Q))
    (labels : list label) :
  attrs self !! "X_train_" = Some (VMatrix Xt) →
  is_Some (attrs self !! "y_test_") →
  attrs self !! "y_train" = Some (VLabels labels) →
  1 ≤ n_neighbors self →
  check_array X = Ok X → check_array Xt = Ok Xt →
  length (default [] (head X)) = length (default [] (head Xt)) →
  (length Xt ≤ length labels)%nat →
  Forall (λ l, ∃ z f, int_of_label l = Ok z ∧ float_of_int z = Ok f) labels →
  ∃ y_pred, predict self X = Ok y_pred ∧ length y_pred = length X.
Proof.
  intros Hattr Htest Hy Hk HX HXt Hcols Hlen Hconv.
  pose proof (pairwise_distances_checked X Xt HX HXt Hcols) as Hd.
  rewrite (predict_past_checks self X _ _ Hattr Htest HX Hd).
  destruct (predict_loop_Ok self ((λ x, sq_dist x <$> Xt) <$> X)
              (seq 0 (length X)) (replicate (length X) 0%Q)) as [out Hout].
  - intros n [_ Hn]%elem_of_seq.
    destruct (lookup_lt_is_Some_2 X n) as [x Hx]; [lia|].
    destruct (nearest_label_Ok self ((λ x, sq_dist x <$> Xt) <$> X) n
                (sq_dist x <$> Xt) labels) as (l & Hl & Hin).
    + by rewrite list_lookup_fmap, Hx.
    + apply check_array_Ok in HXt as [_ HXt]. by destruct Xt.
    + by rewrite length_fmap.
    + done.
    + done.
    + rewrite Forall_forall in Hconv.
      destruct (Hconv l Hin) as (z & f & Hz & Hf).
      exists f, l, z. done.
  - exists out. split; [done|].
    destruct (predict_loop_spec _ _ _ _ _ Hout) as [Hlen' _].
    by rewrite length_replicate in Hlen'.
Qed.
End predict_returns.


(** ** KNearestNeighbors: the majority vote *)

Lemma label_eqb_refl (l : label) : label_eqb l l = true.
Proof.
  destruct l; simpl; [by apply bool_decide_eq_true| |by apply bool_decide_eq_true].
  by apply Qeq_bool_iff.
Qed.

Lemma label_eqb_sym (a b : label) : label_eqb a b = label_eqb b a.
Proof.
  destruct a as [x|p|s], b as [y|q|t]; simpl; try done.
  - apply bool_decide_ext. naive_solver.
  - destruct (Qeq_bool p q) eqn:Hpq, (Qeq_bool q p) eqn:Hqp; try done.
    + apply Qeq_bool_iff in Hpq. symmetry in Hpq.
      apply Qeq_bool_iff in Hpq. congruence.
    + apply Qeq_bool_iff in Hqp. symmetry in Hqp.
      apply Qeq_bool_iff in Hqp. congruence.
  - apply bool_decide_ext. naive_solver.
Qed.

Lemma label_eqb_trans (a b c : label) :
  label_eqb a b = true → label_eqb b c = true → label_eqb a c = true.
Proof.
  destruct a as [x|p|s], b as [y|q|t], c as [z|r|u]; simpl; try done.
  - intros ->%bool_decide_eq_true. done.
  - rewrite !Qeq_bool_iff. intros -> ->. reflexivity.
  - intros ->%bool_decide_eq_true. done.
Qed.

(** Equal labels are counted alike. *)
Lemma label_eqb_same (a b x : label) :
  label_eqb a b = true → label_eqb a x = label_eqb b x.
Proof.
  intros Hab. destruct (label_eqb b x) eqn:Hbx.
  - by eapply label_eqb_trans.
  - destruct (label_eqb a x) eqn:Hax; [|done].
    rewrite <-Hbx. symmetry. eapply label_eqb_trans; [|exact Hax].
    by rewrite label_eqb_sym.
Qed.

Lemma count_of_cons (l x : label) (labels : list label) :
  count_of l (x :: labels)
  = ((if label_eqb l x then 1 else 0) + count_of l labels)%nat.
Proof.
  unfold count_of. rewrite filter_cons.
  destruct (label_eqb l x); by case_decide.
Qed.

Lemma count_of_app (l : label) (k1 k2 : list label) :
  count_of l (k1 ++ k2) = (count_of l k1 + count_of l k2)%nat.
Proof. unfold count_of. by rewrite filter_app, length_app. Qed.

(** Adding a label to a [Counter] adds one to the count of the labels
    equal to it, and to no other. *)
Lemma count_in_count_add (x l : label) (c : list (label * nat)) :
  count_in (count_add x c) l
  = (count_in c l + (if label_eqb x l then 1 else 0))%nat.
Proof.
  induction c as [|[y n] c IH]; simpl.
  - by destruct (label_eqb x l).
  - destruct (label_eqb y x) eqn:Hyx; simpl.
    + rewrite <-(label_eqb_same y x l Hyx).
      destruct (label_eqb y l); lia.
    + destruct (label_eqb y l) eqn:Hyl; [|done].
      destruct (label_eqb x l) eqn:Hxl; [|lia].
      rewrite label_eqb_sym in Hxl.
      by rewrite (label_eqb_trans y l x Hyl Hxl) in Hyx.
Qed.

(** The count a [Counter] holds for a label is the number of labels
    equal to it. *)
Lemma count_in_Counter (labels : list label) (l : label) :
  count_in (Counter labels) l = count_of l labels.
Proof.
  unfold Counter.
  assert (∀ c, count_in (foldl (λ c x, count_add x c) c labels) l
               = (count_in c l + count_of l labels)%nat) as Hgen.
  { induction labels as [|x labels IH]; intros c; simpl.
    - unfold count_of. simpl. lia.
    - rewrite IH, count_in_count_add, count_of_cons.
      rewrite (label_eqb_sym x l). lia. }
  by rewrite Hgen.
Qed.

Lemma count_add_entries (x : label) (c : list (label * nat)) (e : label * nat) :
  e ∈ count_add x c →
  e ∈ c ∨ e = (x, 1%nat) ∨
  ∃ n, (e.1, n) ∈ c ∧ e.2 = S n ∧ label_eqb e.1 x = true.
Proof.
  induction c as [|[y n] c IH]; simpl.
  - intros ->%list_elem_of_singleton. by right; left.
  - destruct (label_eqb y x) eqn:Hyx.
    + intros [->|He]%elem_of_cons.
      * right; right. exists n. split_and!; [left|done..].
      * left. by right.
    + intros [->|He]%elem_of_cons; [left; left|].
      destruct (IH He) as [?|[->|(m & ? & ? & ?)]].
      * left. by right.
      * by right; left.
      * right; right. exists m. split_and!; [by right|done..].
Qed.

(** No entry of a [Counter] holds more than the number of labels equal
    to its key. *)
Lemma Counter_entries_bounded (labels : list label) (e : label * nat) :
  e ∈ Counter labels → (e.2 ≤ count_of e.1 labels)%nat.
Proof.
  unfold Counter.
  assert (∀ seen c,
            (∀ e', e' ∈ c → (e'.2 ≤ count_of e'.1 seen)%nat) →
            e ∈ foldl (λ c x, count_add x c) c labels →
            (e.2 ≤ count_of e.1 (seen ++ labels))%nat) as Hgen.
  { induction labels as [|x labels IH]; intros seen c Hc; simpl.
    - rewrite app_nil_r. auto.
    - intros He. rewrite (cons_middle x seen labels), app_assoc.
      apply (IH (seen ++ [x]) (count_add x c)); [|done].
      intros e' [Hin|[->|(m & Hin & -> & Heq)]]%count_add_entries;
        rewrite count_of_app, count_of_cons.
      + specialize (Hc e' Hin). lia.
      + simpl. rewrite label_eqb_refl. lia.
      + specialize (Hc _ Hin). simpl in Hc. rewrite Heq. lia. }
  apply (Hgen [] []). by intros ? ?%not_elem_of_nil.
Qed.

Lemma most_common_1_max (c : list (label * nat)) (best e : label * nat) :
  most_common_1 c !! 0%nat = Some best → e ∈ c → (e.2 ≤ best.2)%nat.
Proof.
  destruct c as [|e0 c]; simpl; [done|]. intros [= <-].
  assert (∀ b, (b.2 ≤ (foldl (λ best e', if decide (best.2 < e'.2)%nat
                                          then e' else best) b c).2)%nat ∧
               ∀ e', e' ∈ c →
                 (e'.2 ≤ (foldl (λ best e', if decide (best.2 < e'.2)%nat
                                            then e' else best) b c).2)%nat)
    as Hgen.
  { induction c as [|e1 c IH]; intros b; simpl.
    - split; [done|]. by intros ? ?%not_elem_of_nil.
    - destruct (IH (if decide (b.2 < e1.2)%nat then e1 else b)) as [Hb Hc].
      split.
      + etrans; [|exact Hb]. case_decide; lia.
      + intros e' [->|He']%elem_of_cons; [|auto].
        etrans; [|exact Hb]. case_decide; lia. }
  destruct (Hgen e0) as [H0 Hc].
  intros [->|He]%elem_of_cons; auto.
Qed.

Lemma count_in_entry (c : list (label * nat)) (l : label) :
  count_in c l = 0%nat ∨ ∃ e, e ∈ c ∧ e.2 = count_in c l.
Proof.
  induction c as [|[k n] c IH]; simpl; [by left|].
  destruct (label_eqb k l).
  - right. exists (k, n). split; [left|done].
  - destruct IH as [?|(e & ? & ?)]; [by left|].
    right. exists e. split; [by right|done].
Qed.

(** The label voted for at a row is one of the labels of its nearest
    training rows, and no label occurs more often among them. *)
Theorem nearest_label_is_most_common (self : KNearestNeighbors)
    (distances : list (list Q)) (n : nat) (l : label) :
  nearest_label self distances n = Ok l →
  ∃ row labels k_nearest_labels,
    distances !! n = Some row ∧
    attrs self !! "y_train" = Some (VLabels labels) ∧
    iloc labels (slice_to (argsort Qle row) (n_neighbors self))
    = Ok k_nearest_labels ∧
    l ∈ k_nearest_labels ∧
    ∀ l', (count_of l' k_nearest_labels ≤ count_of l k_nearest_labels)%nat.
Proof.
  unfold nearest_label.
  intros (row & Hrow%of_option_Ok & (y_tr & Hy%of_option_Ok & Hvote)%bind_Ok)%bind_Ok.
  destruct y_tr as [rows|labels]; [by apply vote_VMatrix in Hvote|].
  unfold vote in Hvote.
  apply bind_Ok in Hvote as (ks & Hks & (best & Hbest%of_option_Ok & [= <-])%bind_Ok).
  exists row, labels, ks. split_and!; [done..| |].
  - by apply Counter_keys, most_common_1_elem_of.
  - intros l'. rewrite <-(count_in_Counter ks l').
    etrans; [|apply Counter_entries_bounded; by apply most_common_1_elem_of].
    destruct (count_in_entry (Counter ks) l') as [->|(e & He & <-)]; [lia|].
    by eapply most_common_1_max.
Qed.

(** ** MonthlySplit: the first and the last month, and the order of rows *)

Section monthly_split_boundary.
Context `{Conversions}.
Implicit Types (self : MonthlySplit) (X : DataFrame).

(** Under distinct row labels: a row of the earliest month of the data is
    in no test list, and a row of the latest month is in no train list. *)
Theorem split_boundary_months self X td pairs (n : nat) (r : cell)
    (t : Timestamp) :
  wf_frame X → NoDup (index X) →
  resolve_time_values self X = Ok td → split self X = Ok pairs →
  index X !! n = Some r → td_values td !! n = Some t →
  ((∀ u, u ∈ td_values td → ¬ period_lt (to_period_M u) (to_period_M t)) →
   ∀ train test, (train, test) ∈ pairs → r ∉ test) ∧
  ((∀ u, u ∈ td_values td → ¬ period_lt (to_period_M t) (to_period_M u)) →
   ∀ train test, (train, test) ∈ pairs → r ∉ train).
Proof.
  intros Hwf Hnd Hr Hs Hn Ht.
  destruct (split_Ok_column self X pairs Hs) as (col & v & Hc & Hcol & Hv & Hr').
  rewrite Hr' in Hr. injection Hr as <-. simpl in *.
  destruct (split_column_spec self X col v) as
    (months & pairs' & Hs' & Hasc & Hmem & Hlen & Hpairs); [by eauto..|].
  rewrite Hs in Hs'. injection Hs' as <-.
  assert (r ∈ ids_of_month (index X) v (to_period_M t)) as Hrow.
  { apply elem_of_ids_of_month. eauto. }
  assert (∀ train test, (train, test) ∈ pairs →
            ∃ p q, p ∈ months ∧ q ∈ months ∧ period_lt p q ∧
                   train ≡ₚ ids_of_month (index X) v p ∧
                   test ≡ₚ ids_of_month (index X) v q) as Hpair.
  { intros train test [j Hj]%list_elem_of_lookup_1.
    pose proof (lookup_lt_Some _ _ _ Hj) as Hlt.
    destruct (lookup_lt_is_Some_2 months j) as [p Hp]; [lia|].
    destruct (lookup_lt_is_Some_2 months (S j)) as [q Hq]; [lia|].
    destruct (Hpairs j p q Hp Hq) as (train' & test' & Hj' & ? & ?).
    simplify_eq. exists p, q. split_and!; [by eapply list_elem_of_lookup_2..| |done|done].
    eapply (StronglySorted_lookup_lt _ months j (S j)); eauto. }
  split; intros Hedge train test Hin Hmember;
    destruct (Hpair train test Hin) as (p & q & Hp & Hq & Hpq & Htr & Hte).
  - rewrite Hte in Hmember.
    pose proof (ids_of_month_inj _ _ _ _ _ Hnd Hmember Hrow) as ->.
    apply Hmem, list_elem_of_fmap in Hp as (u & -> & Hu).
    by apply (Hedge u Hu).
  - rewrite Htr in Hmember.
    pose proof (ids_of_month_inj _ _ _ _ _ Hnd Hmember Hrow) as ->.
    apply Hmem, list_elem_of_fmap in Hq as (u & -> & Hu).
    by apply (Hedge u Hu).
Qed.

(** [get_n_splits] looks at the dates only, not at their order nor at
    where the table keeps them: two tables, dated by row labels or by a
    column, with the same dates in any order get the same answer. *)
Theorem get_n_splits_same_dates self X td self' X' td' :
  resolve_time_values self X = Ok td →
  resolve_time_values self' X' = Ok td' →
  td_values td ≡ₚ td_values td' →
  get_n_splits self X = get_n_splits self' X'.
Proof.
  intros Hr Hr' Hperm. unfold get_n_splits. rewrite Hr, Hr'. run.
  pose proof (stable_sort_Permutation ts_le (td_values td)) as Hs.
  pose proof (stable_sort_Permutation ts_le (td_values td')) as Hs'.
  assert (stable_sort ts_le (td_values td)
          ≡ₚ stable_sort ts_le (td_values td')) as Hsame by (by rewrite Hs, Hs').
  clear Hs Hs'.
  generalize dependent (stable_sort ts_le (td_values td')).
  generalize (stable_sort ts_le (td_values td)).
  intros sorted sorted' Hsame.
  destruct (decide (sorted = [])) as [->|Hne].
  { apply Permutation_nil_l in Hsame. by rewrite Hsame. }
  destruct (ts_min_is_Some sorted Hne) as [lo Hlo].
  destruct (ts_max_is_Some sorted Hne) as [hi Hhi].
  rewrite Hlo, Hhi.
  apply ts_min_spec in Hlo as [Hlo_in Hlo_le].
  apply ts_max_spec in Hhi as [Hhi_in Hhi_le].
  rewrite (ts_min_earliest sorted' lo), (ts_max_latest sorted' hi).
  - done.
  - by rewrite <-Hsame.
  - intros u Hu. apply Hhi_le. by rewrite Hsame.
  - by rewrite <-Hsame.
  - intros u Hu. apply Hlo_le. by rewrite Hsame.
Qed.
End monthly_split_boundary.

(** ** KNearestNeighbors: what [predict] reads *)

Section predict_reads.
Context `{Conversions}.
Implicit Types (self : KNearestNeighbors) (X : list (list Q)).

Lemma predict_loop_ext self self' (distances : list (list Q))
    (rows : list nat) (y_pred : list Q) :
  (∀ n, nearest_label self distances n = nearest_label self' distances n) →
  predict_loop self distances y_pred rows
  = predict_loop self' distances y_pred rows.
Proof.
  intros Hsame. revert y_pred.
  induction rows as [|n rows IH]; intros y_pred; simpl; [done|].
  unfold predict_step. rewrite Hsame.
  destruct (nearest_label self' distances n ≫= _) as [y_pred'|e]; simpl; [|done].
  apply IH.
Qed.

(** [predict] never reads [y_train_], the attribute in which [fit] keeps
    the labels: whatever it is set to, [predict] does the same. *)
Theorem predict_ignores_fitted_labels self X (v : value) :
  predict (setattr self "y_train_" v) X = predict self X.
Proof.
  unfold predict, check_is_fitted, getattr, setattr. simpl.
  unfold hasattr. simpl. rewrite !lookup_insert_ne by done.
  destruct (bool_decide (is_Some (attrs self !! "X_train_")) &&
            (bool_decide (is_Some (attrs self !! "y_test_")) && true));
    [|done]. run.
  destruct (check_array X) as [X'|e]; [|done]. run.
  destruct (attrs self !! "X_train_") as [X_train_|]; [|done]. run.
  destruct (pairwise_distances X' X_train_) as [distances|e]; [|done]. run.
  apply predict_loop_ext. intros n.
  unfold nearest_label, getattr. simpl. by rewrite lookup_insert_ne.
Qed.

(** Past the fitted check a query is checked before any label is looked
    at: a query that [check_array] rejects, or whose number of columns is
    not that of the training matrix, raises [ValueError]. *)
Theorem predict_rejects_bad_query self X (Xt : list (list Q)) :
  attrs self !! "X_train_" = Some (VMatrix Xt) →
  is_Some (attrs self !! "y_test_") →
  (∀ X', check_array X ≠ Ok X') ∨
  length (default [] (head X)) ≠ length (default [] (head Xt)) →
  predict self X = Err ValueError.
Proof.
  intros Hattr Htest Hbad. unfold predict.
  assert (check_is_fitted self ["X_train_"; "y_test_"] = Ok ()) as ->.
  { apply check_is_fitted_Ok. intros name Hin.
    apply elem_of_cons in Hin as [->|Hin]; [by rewrite Hattr|].
    by apply list_elem_of_singleton in Hin as ->. }
  run. destruct (check_array X) as [X'|e] eqn:HX.
  - destruct Hbad as [Hbad|Hbad]; [by destruct (Hbad X')|].
    apply check_array_Ok in HX as [-> _]. run.
    unfold getattr. rewrite Hattr. run.
    unfold pairwise_distances.
    destruct (check_array X) as [X'|e] eqn:HX; run.
    + apply check_array_Ok in HX as [-> _].
      destruct (check_array Xt) as [Xt'|e] eqn:HXt; run.
      * apply check_array_Ok in HXt as [-> _]. by rewrite decide_False.
      * by rewrite (check_array_Err _ _ HXt).
    + by rewrite (check_array_Err _ _ HX).
  - by rewrite (check_array_Err _ _ HX).
Qed.
End predict_reads.

(** ** The further properties at work on the examples *)

(** The frame of a table with the one column ["date"]. *)
Ltac one_column_wf :=
  let name := fresh "name" in
  let col := fresh "col" in
  let Hcol := fresh "Hcol" in
  intros name col Hcol; simpl in Hcol;
  apply lookup_singleton_Some in Hcol as [_ <-]; reflexivity.

Lemma X_with_gap_wf : wf_frame X_with_gap.
Proof. unfold X_with_gap. one_column_wf. Defined.

Lemma X_one_month_wf : wf_frame X_one_month.
Proof. unfold X_one_month. one_column_wf. Defined.

Lemma X_with_gap_calendar :
  Forall calendar_month
    [date 2021 3 1; date 2020 11 5; date 2020 12 24; date 2020 11 30].
Proof. repeat constructor; unfold calendar_month; simpl; lia. Defined.

(** November to March without January and February: the answer is 4,
    the floor unused. *)
Lemma get_n_splits_floor_is_idle_witness :
  @get_n_splits no_text (mkMonthlySplit "date") X_with_gap = Ok (NInt 4).
Proof.
  apply (@get_n_splits_floor_is_idle no_text (mkMonthlySplit "date") X_with_gap
           (Series (index X_with_gap)
              [date 2021 3 1; date 2020 11 5; date 2020 12 24; date 2020 11 30])
           (date 2020 11 5) (date 2021 3 1)).
  - reflexivity.
  - exact X_with_gap_calendar.
  - right. left.
  - left.
  - intros t Ht. simpl in Ht.
    repeat (apply elem_of_cons in Ht as [->|Ht]);
      [unfold ts_le; simpl; lia..|].
    by apply not_elem_of_nil in Ht.
Defined.

(** The table with a gap: two pairs, four announced. *)
Lemma split_yields_at_most_n_splits_witness :
  @split no_text (mkMonthlySplit "date") X_with_gap = Ok gap_pairs ∧
  Z.of_nat (length gap_pairs) ≤ 4.
Proof.
  split; [reflexivity|].
  apply (@split_yields_at_most_n_splits no_text (mkMonthlySplit "date")
           X_with_gap
           (Series (index X_with_gap)
              [date 2021 3 1; date 2020 11 5; date 2020 12 24; date 2020 11 30])).
  - exact X_with_gap_wf.
  - reflexivity.
  - exact X_with_gap_calendar.
  - reflexivity.
  - reflexivity.
Defined.

(** Three rows of March 2021: no pair. *)
Lemma split_one_month_yields_nothing_witness :
  @split no_text (mkMonthlySplit "date") X_one_month = Ok [].
Proof.
  apply (@split_one_month_yields_nothing no_text (mkMonthlySplit "date")
           X_one_month
           (CTime <$> [date 2021 3 9; date 2021 3 1; date 2021 3 31])
           [date 2021 3 9; date 2021 3 1; date 2021 3 31]).
  - exact X_one_month_wf.
  - discriminate.
  - reflexivity.
  - reflexivity.
  - assert (∀ t, t ∈ [date 2021 3 9; date 2021 3 1; date 2021 3 31] →
                 to_period_M t = (2021, 3)) as Hmarch.
    { intros t Ht.
      repeat (apply elem_of_cons in Ht as [->|Ht]; [reflexivity|]).
      by apply not_elem_of_nil in Ht. }
    intros t u Ht Hu. by rewrite (Hmarch t Ht), (Hmarch u Hu).
Defined.

(** The row of 5 November 2020, label 11, of the earliest month: in no
    test list. *)
Lemma split_boundary_months_witness :
  Forall (λ pair, CInt 11 ∉ pair.2) five_month_pairs.
Proof.
  apply Forall_forall. intros [train test] Hin. revert train test Hin.
  apply (@split_boundary_months no_text (mkMonthlySplit "date") X_by_column
           (Series (index X_by_column) five_months) five_month_pairs
           1%nat (CInt 11) (date 2020 11 5) X_by_column_wf X_by_column_NoDup
           eq_refl eq_refl eq_refl eq_refl).
  intros u Hu. simpl in Hu.
  repeat (apply elem_of_cons in Hu as [->|Hu]);
    [unfold period_lt; simpl; lia..|].
  by apply not_elem_of_nil in Hu.
Defined.

(** The same dates as row labels and in a column: the same answer. *)
Lemma get_n_splits_same_dates_witness :
  @get_n_splits no_text (mkMonthlySplit "index") X_by_index
  = @get_n_splits no_text (mkMonthlySplit "date") X_by_column.
Proof.
  apply (@get_n_splits_same_dates no_text (mkMonthlySplit "index") X_by_index
           (DatetimeIndex five_months) (mkMonthlySplit "date") X_by_column
           (Series (index X_by_column) five_months));
    reflexivity.
Defined.

(** [fit] twice: the second training set is the one that stays. *)
Lemma fit_again_replaces_witness :
  fit (mkKNearestNeighbors 1
         (<["y_train_" := VLabels y_train]>
            (<["X_train_" := VMatrix X_train]> ∅)))
      [[5]]%Q [LInt 1]
  = fit (init 1) [[5]]%Q [LInt 1].
Proof.
  apply (fit_again_replaces (init 1) X_train y_train). reflexivity.
Defined.

(** A query without rows, on a fresh instance: [ValueError]. *)
Lemma score_checks_inputs_first_witness :
  @score no_text (init 1) [] [LInt 5] = Err ValueError.
Proof.
  apply (@score_checks_inputs_first no_text). left. intros X'. discriminate.
Defined.

(** The instance set up by hand has what [predict] reads. *)
Lemma predict_returns_only_with_attributes_witness :
  ∃ Xt labels,
    attrs (by_hand 1 y_train) !! "X_train_" = Some (VMatrix Xt) ∧ Xt ≠ [] ∧
    is_Some (attrs (by_hand 1 y_train) !! "y_test_") ∧
    attrs (by_hand 1 y_train) !! "y_train" = Some (VLabels labels) ∧
    n_neighbors (by_hand 1 y_train) ≠ 0.
Proof.
  apply (@predict_returns_only_with_attributes no_text (by_hand 1 y_train)
           [[0; 0]]%Q [5]%Q).
  reflexivity.
Defined.

(** The same instance with [n_neighbors = 0]. *)
Lemma predict_zero_neighbors_raises_witness :
  @predict no_text (by_hand 0 y_train) [[0; 0]]%Q = Err IndexError.
Proof.
  apply (@predict_zero_neighbors_raises no_text (by_hand 0 y_train)
           [[0; 0]]%Q (VMatrix X_train) [[0; 2; 18]]%Q).
  - reflexivity.
  - reflexivity.
  - by eexists.
  - by eexists.
  - reflexivity.
  - reflexivity.
Defined.

(** Integer labels, one neighbour, a query of two columns. *)
Lemma predict_returns_a_vector_witness :
  ∃ y_pred,
    @predict no_text (by_hand 1 y_train) [[0; 0]; [2; 2]]%Q = Ok y_pred ∧
    length y_pred = 2%nat.
Proof.
  apply (@predict_returns_a_vector no_text (by_hand 1 y_train)
           [[0; 0]; [2; 2]]%Q X_train y_train).
  - reflexivity.
  - by eexists.
  - reflexivity.
  - simpl. lia.
  - reflexivity.
  - reflexivity.
  - reflexivity.
  - simpl. lia.
  - repeat constructor; eexists _, _; split; reflexivity.
Defined.

(** Three neighbours labelled 5, 7 and 7: the vote is 7. *)
Lemma nearest_label_is_most_common_witness :
  ∃ row labels k_nearest_labels,
    [[0; 2; 18]]%Q !! 0%nat = Some row ∧
    attrs (by_hand 3 y_train) !! "y_train" = Some (VLabels labels) ∧
    iloc labels (slice_to (argsort Qle row) 3) = Ok k_nearest_labels ∧
    LInt 7 ∈ k_nearest_labels ∧
    ∀ l', (count_of l' k_nearest_labels
           ≤ count_of (LInt 7) k_nearest_labels)%nat.
Proof.
  apply (nearest_label_is_most_common (by_hand 3 y_train) [[0; 2; 18]]%Q
           0%nat (LInt 7)).
  reflexivity.
Defined.

(** A query of three columns against training rows of two. *)
Lemma predict_rejects_bad_query_witness :
  @predict no_text (by_hand 1 y_train) [[0; 0; 0]]%Q = Err ValueError.
Proof.
  apply (@predict_rejects_bad_query no_text (by_hand 1 y_train)
           [[0; 0; 0]]%Q X_train).
  - reflexivity.
  - by eexists.
  - right. simpl. lia.
Defined.
